(** * Neural style transfer (Gatys.py / main.py): loss composition and training loop

    A shallow embedding of the optimisation engine of the two scripts
    [Gatys.py] and [main.py]: the Gram statistic, the content, style and
    total-variation losses, their combination in [compute_loss], the
    construction of the truncated network, feature extraction, and the
    training loop; and of the image transformations around it, [preprocess]
    and [postprocess], with the references [get_contents] and [get_styles].

    Numbers.  The code is written once over an interface [Elt] of entry
    operations and run at three instances.  [float32] is IEEE binary32 with
    round-to-nearest-even, the arithmetic torch computes in: what is said
    about rounding, overflow and underflow is said there.  A [scalar] is an
    exact rational, one of the two infinities, or NaN, with the IEEE rules
    for the special values, so that [0 / 0] is NaN, [x / 0] is an infinity
    and NaN is absorbing; it carries the statements that do not depend on
    rounding.  A [tracked] value is a scalar with the set of autograd graph
    nodes it was computed from.

    Python.  Exceptions are values of [pyresult]; [pynum] tells a Python int
    from a float or zero-dimensional tensor, because [0 / 0] on ints raises
    while on tensors it yields NaN. *)

From Stdlib Require Import ZArith QArith Qcanon Qcabs List Bool Lia Lqa SpecFloat
  Permutation.
Import ListNotations.

Set Implicit Arguments.

Local Close Scope Qc_scope.
Local Close Scope Q_scope.
Local Open Scope nat_scope.

(** ** Python results *)

Inductive exn : Type :=
| ZeroDivisionError
| IndexError
| ValueError
| RuntimeError
| AttributeError
| TypeError.

Inductive pyresult (A : Type) : Type :=
| Ok (a : A)
| Raise (e : exn).

Arguments Ok {A} a.
Arguments Raise {A} e.

Definition bind {A B} (m : pyresult A) (k : A -> pyresult B) : pyresult B :=
  match m with
  | Ok a => k a
  | Raise e => Raise e
  end.

Declare Scope py_scope.
Delimit Scope py_scope with py.
Notation "x <- m ;; k" := (bind m (fun x => k))
  (at level 61, m at next level, right associativity) : py_scope.
Notation "' pat <- m ;; k" := (bind m (fun x => match x with pat => k end))
  (at level 61, pat pattern, m at next level, right associativity) : py_scope.
Local Open Scope py_scope.

(** A list comprehension whose body may raise: left to right, the first
    exception wins. *)
Fixpoint mapM {A B} (f : A -> pyresult B) (l : list A) : pyresult (list B) :=
  match l with
  | [] => Ok []
  | a :: r => b <- f a ;; bs <- mapM f r ;; Ok (b :: bs)
  end.

(** Element-wise combination of two sequences of the same length; a length
    mismatch is torch's size-mismatch [RuntimeError].  (torch would broadcast
    some unequal shapes; the program only ever combines tensors of one
    shape.) *)
Fixpoint zip_exact {A B C} (f : A -> B -> pyresult C) (l1 : list A) (l2 : list B)
  : pyresult (list C) :=
  match l1, l2 with
  | [], [] => Ok []
  | a :: r1, b :: r2 => c <- f a b ;; cs <- zip_exact f r1 r2 ;; Ok (c :: cs)
  | _, _ => Raise RuntimeError
  end.

(** ** Scalars *)

Inductive scalar : Type :=
| Fin (q : Qc)
| Inf (neg : bool)
| NaN.

Definition is_neg (q : Qc) : bool :=
  match (q ?= 0)%Qc with Lt => true | _ => false end.

Definition is_zero (q : Qc) : bool :=
  match (q ?= 0)%Qc with Eq => true | _ => false end.

Definition sadd (x y : scalar) : scalar :=
  match x, y with
  | NaN, _ | _, NaN => NaN
  | Fin a, Fin b => Fin (a + b)%Qc
  | Inf s, Fin _ | Fin _, Inf s => Inf s
  | Inf s, Inf t => if Bool.eqb s t then Inf s else NaN
  end.

Definition sneg (x : scalar) : scalar :=
  match x with
  | Fin a => Fin (- a)%Qc
  | Inf s => Inf (negb s)
  | NaN => NaN
  end.

Definition ssub (x y : scalar) : scalar := sadd x (sneg y).

Definition smul (x y : scalar) : scalar :=
  match x, y with
  | NaN, _ | _, NaN => NaN
  | Fin a, Fin b => Fin (a * b)%Qc
  | Inf s, Fin b | Fin b, Inf s =>
      if is_zero b then NaN else Inf (xorb s (is_neg b))
  | Inf s, Inf t => Inf (xorb s t)
  end.

Definition sdiv (x y : scalar) : scalar :=
  match x, y with
  | NaN, _ | _, NaN => NaN
  | Fin a, Fin b =>
      if is_zero b
      then (if is_zero a then NaN else Inf (is_neg a))
      else Fin (a / b)%Qc
  | Fin _, Inf _ => Fin 0%Qc
  | Inf s, Fin b => Inf (xorb s (is_neg b))
  | Inf _, Inf _ => NaN
  end.

Definition sabs (x : scalar) : scalar :=
  match x with
  | Fin a => Fin (Qcabs a)
  | Inf _ => Inf false
  | NaN => NaN
  end.

Definition is_finite (x : scalar) : bool :=
  match x with Fin _ => true | _ => false end.

Definition Qc_of_Z (z : Z) : Qc := Q2Qc (inject_Z z).
Definition Qc_of_nat (n : nat) : Qc := Qc_of_Z (Z.of_nat n).

(** [torch.clamp(x, lo, hi)]: [min(max(x, lo), hi)]; NaN stays NaN. *)
Definition sclamp (lo hi : Qc) (x : scalar) : scalar :=
  let up (q : Qc) := if is_neg (q - lo)%Qc then lo else q in
  let down (q : Qc) := if is_neg (hi - q)%Qc then hi else q in
  match x with
  | NaN => NaN
  | Fin q => Fin (down (up q))
  | Inf true => Fin (down lo)
  | Inf false => Fin hi
  end.

(** ** binary32

    The entries torch computes with: IEEE binary32 numbers, 24 bits of
    precision, round to nearest even, as the standard library specifies
    them.  An int becomes the nearest float; a constant that is not an int
    is the quotient of its numerator and denominator, which is exact for
    [0.5] and correctly rounded for the three-digit RGB constants. *)

Definition float32 : Type := spec_float.

Definition prec32 : Z := 24.
Definition emax32 : Z := 128.

Definition f32_of_Z (z : Z) : float32 := binary_normalize prec32 emax32 z 0 false.

Definition f32_lit (q : Qc) : float32 :=
  if (Zpos (Qden q) =? 1)%Z then f32_of_Z (Qnum q)
  else SFdiv prec32 emax32 (f32_of_Z (Qnum q)) (f32_of_Z (Zpos (Qden q))).

Definition f32_clamp (lo hi : Qc) (x : float32) : float32 :=
  match x with
  | S754_nan => S754_nan
  | _ => let y := if SFltb x (f32_lit lo) then f32_lit lo else x in
         if SFltb (f32_lit hi) y then f32_lit hi else y
  end.

(** ** Entries of a tensor *)

Class Elt (A : Type) : Type := {
  tlit : Qc -> A;          (* a numeric constant *)
  tadd : A -> A -> A;
  tsub : A -> A -> A;
  tmul : A -> A -> A;
  tdiv : A -> A -> A;
  tabs : A -> A;
  tclamp : Qc -> Qc -> A -> A;   (* torch.clamp between two constants *)
  tdetach : A -> A;        (* same value, cut from the autograd graph *)
  tparam : A -> A          (* same value, a leaf of the graph that requires grad *)
}.

#[export] Instance Elt_scalar : Elt scalar := {
  tlit := Fin;
  tadd := sadd;
  tsub := ssub;
  tmul := smul;
  tdiv := sdiv;
  tabs := sabs;
  tclamp := sclamp;
  tdetach := fun x => x;
  tparam := fun x => x
}.

#[export] Instance Elt_float32 : Elt float32 := {
  tlit := f32_lit;
  tadd := SFadd prec32 emax32;
  tsub := SFsub prec32 emax32;
  tmul := SFmul prec32 emax32;
  tdiv := SFdiv prec32 emax32;
  tabs := SFabs;
  tclamp := f32_clamp;
  tdetach := fun x => x;
  tparam := fun x => x
}.

(** A value together with the graph nodes its history reaches: [backward]
    accumulates gradient into exactly those. *)
Record tracked : Type := Tracked { val : scalar; hist : list nat }.

(** The graph node of the synthesized image, the one [nn.Parameter]. *)
Definition image_node : nat := 0.

Definition lift2 (f : scalar -> scalar -> scalar) (x y : tracked) : tracked :=
  Tracked (f (val x) (val y)) (hist x ++ hist y).

#[export] Instance Elt_tracked : Elt tracked := {
  tlit := fun q => Tracked (Fin q) [];
  tadd := lift2 sadd;
  tsub := lift2 ssub;
  tmul := lift2 smul;
  tdiv := lift2 sdiv;
  tabs := fun x => Tracked (sabs (val x)) (hist x);
  tclamp := fun lo hi x => Tracked (sclamp lo hi (val x)) (hist x);
  tdetach := fun x => Tracked (val x) [];
  tparam := fun x => Tracked (val x) [image_node]
}.

(** ** Tensors

    An activation or image tensor of shape [(N, C, H, W)] is the nested
    list of its entries, as torch prints it.  The batch extent is 1
    everywhere in the program ([preprocess] adds it with [unsqueeze(0)]).
    A nested list with an empty axis does not record the extents of the axes
    inside it; torch does, but the functions below read those extents only
    through [numel] and [shape[1]], which the list gives when the batch is
    not empty.  A matrix keeps its two extents next to its rows, so that the transpose
    of a matrix with no columns still knows how many rows it came from. *)

Section Tensors.
Context {A : Type} `{Elt A}.

Definition tensor4 : Type := list (list (list (list A))).

Record matrix : Type := Matrix {
  nrows : nat;
  ncols : nat;
  rows : list (list A)
}.

Definition flatten4 (X : tensor4) : list A :=
  concat (map (fun img => concat (map (@concat A) img)) X).

(** [X.numel()] and [X.shape[1]] *)
Definition numel4 (X : tensor4) : nat := length (flatten4 X).
Definition shape1 (X : tensor4) : nat := length (hd [] X).

Definition map4 (f : A -> A) (X : tensor4) : tensor4 :=
  map (map (map (map f))) X.

(** [torch.sum]: the entries added up from zero; [.mean()] divides the sum
    by the number of entries, which for an empty tensor is [0 / 0]. *)
Definition tsum (l : list A) : A := fold_left tadd l (tlit 0%Qc).

Definition mean (l : list A) : A :=
  tdiv (tsum l) (tlit (Qc_of_nat (length l))).

Definition mean4 (X : tensor4) : A := mean (flatten4 X).

Definition square (x : A) : A := tmul x x.

(** [X - Y] on 4-d tensors *)
Definition sub4 (X Y : tensor4) : pyresult tensor4 :=
  zip_exact (zip_exact (zip_exact (zip_exact (fun x y => Ok (tsub x y))))) X Y.

(** The four slices of [tv_loss]: [1:] drops the first index of an axis,
    [:-1] the last one. *)
Definition rows_from_1 (X : tensor4) : tensor4 := map (map (@tl (list A))) X.
Definition rows_to_last (X : tensor4) : tensor4 := map (map (@removelast (list A))) X.
Definition cols_from_1 (X : tensor4) : tensor4 := map (map (map (@tl A))) X.
Definition cols_to_last (X : tensor4) : tensor4 := map (map (map (@removelast A))) X.

(** *** Matrices *)

Definition entry (M : matrix) (i j : nat) : A :=
  nth j (nth i (rows M) []) (tlit 0%Qc).

Definition tabulate (r c : nat) (f : nat -> nat -> A) : matrix :=
  Matrix r c (map (fun i => map (fun j => f i j) (seq 0 c)) (seq 0 r)).

(** [X.T] *)
Definition transpose (M : matrix) : matrix :=
  tabulate (ncols M) (nrows M) (fun i j => entry M j i).

Definition dot (M N : matrix) (i j : nat) : A :=
  tsum (map (fun k => tmul (entry M i k) (entry N k j)) (seq 0 (ncols M))).

(** [torch.matmul] on two matrices *)
Definition matmul (M N : matrix) : pyresult matrix :=
  if ncols M =? nrows N
  then Ok (tabulate (nrows M) (ncols N) (dot M N))
  else Raise RuntimeError.

Definition mmap (f : A -> A) (M : matrix) : matrix :=
  Matrix (nrows M) (ncols M) (map (map f) (rows M)).

Definition msub (M N : matrix) : pyresult matrix :=
  if (nrows M =? nrows N) && (ncols M =? ncols N)
  then rs <- zip_exact (zip_exact (fun x y => Ok (tsub x y))) (rows M) (rows N) ;;
       Ok (Matrix (nrows M) (ncols M) rs)
  else Raise RuntimeError.

Definition meanm (M : matrix) : A := mean (concat (rows M)).

(** [X.reshape((r, c))]: the entries in storage order, cut into [r] rows
    of [c]. *)
Definition reshape (X : tensor4) (r c : nat) : pyresult matrix :=
  let flat := flatten4 X in
  if r * c =? length flat
  then Ok (Matrix r c (map (fun i => firstn c (skipn (i * c) flat)) (seq 0 r)))
  else Raise RuntimeError.

(** Python's [a // b] on ints *)
Definition py_floordiv (a b : nat) : pyresult nat :=
  if b =? 0 then Raise ZeroDivisionError else Ok (a / b).

(** ** The loss functions (the same text in Gatys.py and main.py) *)

(** [torch.square(Y_hat - Y.detach()).mean()] *)
Definition content_loss (Y_hat Y : tensor4) : pyresult A :=
  D <- sub4 Y_hat (map4 tdetach Y) ;;
  Ok (mean4 (map4 square D)).

(** [num_channels, n = X.shape[1], X.numel() // X.shape[1]];
    [X = X.reshape((num_channels, n))];
    [return torch.matmul(X, X.T) / n] *)
Definition gram (X : tensor4) : pyresult matrix :=
  let num_channels := shape1 X in
  n <- py_floordiv (numel4 X) num_channels ;;
  X' <- reshape X num_channels n ;;
  P <- matmul X' (transpose X') ;;
  Ok (mmap (fun x => tdiv x (tlit (Qc_of_nat n))) P).

(** [torch.square(gram(Y_hat) - gram_Y.detach()).mean() / 4] *)
Definition style_loss (Y_hat : tensor4) (gram_Y : matrix) : pyresult A :=
  G <- gram Y_hat ;;
  D <- msub G (mmap tdetach gram_Y) ;;
  Ok (tdiv (meanm (mmap square D)) (tlit (Qc_of_Z 4))).

(** [0.5 * (torch.abs(Y_hat[:, :, 1:, :] - Y_hat[:, :, :-1, :]).mean() +
           torch.abs(Y_hat[:, :, :, 1:] - Y_hat[:, :, :, :-1]).mean())] *)
Definition tv_loss (Y_hat : tensor4) : pyresult A :=
  Dv <- sub4 (rows_from_1 Y_hat) (rows_to_last Y_hat) ;;
  Dh <- sub4 (cols_from_1 Y_hat) (cols_to_last Y_hat) ;;
  Ok (tmul (tlit (Q2Qc (1 # 2)))
           (tadd (mean4 (map4 tabs Dv)) (mean4 (map4 tabs Dh)))).

(** ** Python numbers: what [sum] and [/] see *)

Inductive pynum : Type :=
| PyInt (z : Z)
| PyFloat (x : A)
| PyTensor (x : A).

Definition py_add (p q : pynum) : pynum :=
  match p, q with
  | PyInt a, PyInt b => PyInt (a + b)
  | PyInt a, PyFloat y => PyFloat (tadd (tlit (Qc_of_Z a)) y)
  | PyFloat x, PyInt b => PyFloat (tadd x (tlit (Qc_of_Z b)))
  | PyFloat x, PyFloat y => PyFloat (tadd x y)
  | PyInt a, PyTensor y => PyTensor (tadd (tlit (Qc_of_Z a)) y)
  | PyTensor x, PyInt b => PyTensor (tadd x (tlit (Qc_of_Z b)))
  | PyFloat x, PyTensor y | PyTensor x, PyFloat y | PyTensor x, PyTensor y =>
      PyTensor (tadd x y)
  end.

(** [p / n] for an int [n]: ints and floats raise on a zero divisor, a
    tensor divides element-wise and never raises. *)
Definition py_truediv (p : pynum) (n : Z) : pyresult pynum :=
  match p with
  | PyInt a =>
      if (n =? 0)%Z then Raise ZeroDivisionError
      else Ok (PyFloat (tdiv (tlit (Qc_of_Z a)) (tlit (Qc_of_Z n))))
  | PyFloat x =>
      if (n =? 0)%Z then Raise ZeroDivisionError
      else Ok (PyFloat (tdiv x (tlit (Qc_of_Z n))))
  | PyTensor x => Ok (PyTensor (tdiv x (tlit (Qc_of_Z n))))
  end.

(** The builtin [sum]: starts from the int [0]. *)
Definition py_sum (l : list A) : pynum :=
  fold_left py_add (map PyTensor l) (PyInt 0).

Definition py_len {B} (l : list B) : Z := Z.of_nat (length l).

(** The number a [pynum] stands for. *)
Definition py_value (p : pynum) : A :=
  match p with
  | PyInt a => tlit (Qc_of_Z a)
  | PyFloat x | PyTensor x => x
  end.

End Tensors.

Arguments tensor4 A : clear implicits.
Arguments matrix A : clear implicits.
Arguments pynum A : clear implicits.

(** ** The truncated network and feature extraction *)

Section Network.
Context {A : Type} `{Elt A}.

(** A layer of the pretrained network: callable, tensor to tensor.  A
    layer is taken as a function of its input.  A layer that overwrites its
    input, as [nn.ReLU(inplace=True)] does, also changes the activation that
    was recorded just before it; a function does not express that, and
    nothing below is said about the entries of an activation that a later
    layer overwrites. *)
Definition layer : Type := tensor4 A -> tensor4 A.

(** [features[i]] on an [nn.Sequential] *)
Definition sequential_getitem (features : list layer) (i : Z) : pyresult layer :=
  let len := Z.of_nat (length features) in
  if ((- len <=? i) && (i <? len))%Z
  then match nth_error features (Z.to_nat (if (i <? 0)%Z then i + len else i)) with
       | Some f => Ok f
       | None => Raise IndexError
       end
  else Raise IndexError.

(** The builtins [max] (of a list) and [range]. *)
Definition py_max (l : list Z) : pyresult Z :=
  match l with
  | [] => Raise ValueError
  | x :: r => Ok (fold_left Z.max r x)
  end.

Definition py_range (n : Z) : list Z := map Z.of_nat (seq 0 (Z.to_nat n)).

Definition py_in (i : Z) (l : list Z) : bool := existsb (Z.eqb i) l.

(** The layers [Pretrained_CNN.features[i] for i in
    range(max(Content_Layers + Style_Layers) + 1)] that [nn.Sequential]
    is built from, when the module is loaded. *)
Definition Incomplete_CNN (features : list layer) (Content_Layers Style_Layers : list Z)
  : pyresult (list layer) :=
  m <- py_max (Content_Layers ++ Style_Layers) ;;
  mapM (sequential_getitem features) (py_range (m + 1)).

(** The loop of [extract_features], from layer index [i] on. *)
Fixpoint extract_loop (net : list layer) (i : Z) (X : tensor4 A)
    (content_layers_ style_layers_ : list Z)
    (contents styles : list (tensor4 A)) : list (tensor4 A) * list (tensor4 A) :=
  match net with
  | [] => (contents, styles)
  | f :: net' =>
      let X := f X in
      let styles := if py_in i style_layers_ then styles ++ [X] else styles in
      let contents := if py_in i content_layers_ then contents ++ [X] else contents in
      extract_loop net' (i + 1) X content_layers_ style_layers_ contents styles
  end.

Definition extract_features (net : list layer) (X : tensor4 A)
    (content_layers_ style_layers_ : list Z) : list (tensor4 A) * list (tensor4 A) :=
  extract_loop net 0 X content_layers_ style_layers_ [] [].

(** [ll.backward()] and [ll.item()] need a tensor. *)
Definition as_tensor (p : pynum A) : pyresult A :=
  match p with
  | PyTensor x => Ok x
  | _ => Raise AttributeError
  end.

(** [dst.copy_(src)] on the data of two tensors of one shape. *)
Definition copy_ (dst src : tensor4 A) : pyresult (tensor4 A) :=
  zip_exact (zip_exact (zip_exact (zip_exact (fun _ s => Ok s)))) dst src.

(** [X.shape] *)
Definition shape4 (X : tensor4 A) : nat * nat * nat * nat :=
  (length X, length (hd [] X), length (hd [] (hd [] X)),
   length (hd [] (hd [] (hd [] X)))).

(** What the telemetry writer has been given. *)
Inductive record : Type :=
| add_scalar (value : A) (step : Z)
| add_image (img : list (list (list A))) (step : Z).

(** [torch.optim.lr_scheduler.StepLR(trainer, step_size, gamma)]: every
    [step_size]-th call of [step] multiplies the learning rate by [gamma]. *)
Record StepLR : Type := MkStepLR { step_size : Z; gamma : Qc; last_epoch : Z }.

Definition scheduler_step (sch : StepLR) (lr : Qc) : pyresult (StepLR * Qc) :=
  let e := (last_epoch sch + 1)%Z in
  let sch' := MkStepLR (step_size sch) (gamma sch) e in
  if (step_size sch =? 0)%Z then Raise ZeroDivisionError
  else if (e mod step_size sch =? 0)%Z then Ok (sch', (lr * gamma sch)%Qc)
  else Ok (sch', lr).

End Network.

Arguments layer A : clear implicits.
Arguments record A : clear implicits.

(** ** 3-D tensors: what a snapshot and [postprocess] work on

    A 3-D tensor carries its shape with its entries, so that an axis of
    extent 0 keeps the shape that [permute] and broadcasting look at. *)

Section Tensors3.
Context {A : Type} `{Elt A}.

Record tensor3 : Type := T3 { dims : nat * nat * nat; data : list (list (list A)) }.

Definition get3 (l : list (list (list A))) (i j k : nat) : A :=
  nth k (nth j (nth i l []) []) (tlit 0%Qc).

Definition tab3 (a b c : nat) (f : nat -> nat -> nat -> A) : list (list (list A)) :=
  map (fun i => map (fun j => map (fun k => f i j k) (seq 0 c)) (seq 0 b)) (seq 0 a).

(** [RGB_MEAN = torch.tensor([0.485, 0.456, 0.406])],
    [RGB_STD = torch.tensor([0.229, 0.224, 0.225])] *)
Definition RGB_MEAN : list A :=
  [tlit (Q2Qc (485 # 1000)); tlit (Q2Qc (456 # 1000)); tlit (Q2Qc (406 # 1000))].
Definition RGB_STD : list A :=
  [tlit (Q2Qc (229 # 1000)); tlit (Q2Qc (224 # 1000)); tlit (Q2Qc (225 # 1000))].

(** [t.permute(1, 2, 0)] and [t.permute(2, 0, 1)] *)
Definition permute_1_2_0 (t : tensor3) : tensor3 :=
  let '(a, b, c) := dims t in
  T3 (b, c, a) (tab3 b c a (fun i j k => get3 (data t) k i j)).

Definition permute_2_0_1 (t : tensor3) : tensor3 :=
  let '(a, b, c) := dims t in
  T3 (c, a, b) (tab3 c a b (fun i j k => get3 (data t) j k i)).

(** [t * v] and [t + v] for a 1-D tensor [v]: broadcast along the last
    axis; extents that differ must have a 1 among them. *)
Definition broadcast_last (op : A -> A -> A) (t : tensor3) (v : list A)
  : pyresult tensor3 :=
  let '(a, b, c) := dims t in
  let n := length v in
  if Nat.eqb c n
  then Ok (T3 (a, b, c)
              (tab3 a b c (fun i j k => op (get3 (data t) i j k) (nth k v (tlit 0%Qc)))))
  else if Nat.eqb c 1
  then Ok (T3 (a, b, n)
              (tab3 a b n (fun i j k => op (get3 (data t) i j 0) (nth k v (tlit 0%Qc)))))
  else if Nat.eqb n 1
  then Ok (T3 (a, b, c)
              (tab3 a b c (fun i j k => op (get3 (data t) i j k) (nth 0 v (tlit 0%Qc)))))
  else Raise RuntimeError.

(** [torch.clamp(t, lo, hi)] entry by entry *)
Definition clamp (t : tensor3) (lo hi : Qc) : tensor3 :=
  T3 (dims t) (map (map (map (tclamp lo hi))) (data t)).

(** [X[0]] of a 4-D tensor, and [t.detach()] *)
Definition getitem_0 (X : tensor4 A) : pyresult tensor3 :=
  match X with
  | [] => Raise IndexError
  | img :: _ => Ok (T3 (length img, length (hd [] img), length (hd [] (hd [] img))) img)
  end.

Definition detach3 (t : tensor3) : tensor3 :=
  T3 (dims t) (map (map (map tdetach)) (data t)).

End Tensors3.

Arguments tensor3 A : clear implicits.

(** ** The optimizers

    [torch.optim] is a library: its two optimizers are taken as they come.
    A step sees the loss as a function of the image (the closure of L-BFGS,
    or the graph that [backward] differentiates), the learning rate, its own
    state and the one parameter it was given, and returns the new state and
    the new value of that parameter.  L-BFGS evaluates its closure itself,
    so what the closure raises comes out of its step. *)

Section Optimizers.
Context {A : Type} `{Elt A}.

Record torch_optim : Type := {
  LBFGS_state : Type;
  Adam_state : Type;
  LBFGS_new : LBFGS_state;
  Adam_new : Adam_state;
  LBFGS_step : (tensor4 A -> pyresult A) -> Qc -> LBFGS_state -> tensor4 A ->
               pyresult (LBFGS_state * tensor4 A);
  Adam_step : (tensor4 A -> pyresult A) -> Qc -> Adam_state -> tensor4 A ->
              Adam_state * tensor4 A
}.

Inductive optimizer (T : torch_optim) : Type :=
| LBFGS (s : LBFGS_state T)
| Adam (s : Adam_state T).

(** The state of a run of [train]: the synthesized image, the optimizer
    and its learning rate, the scheduler, what was written to the
    telemetry writer, and the two references. *)
Record run (T : torch_optim) : Type := MkRun {
  X_ : tensor4 A;
  trainer : optimizer T;
  lr_ : Qc;
  scheduler : StepLR;
  writer : list (record A);
  contents_Y : list (tensor4 A);
  styles_Y_gram_ : list (matrix A)
}.

End Optimizers.

Arguments torch_optim A : clear implicits.
Arguments LBFGS {A T} s.
Arguments Adam {A T} s.

(** ** Gatys.py *)

Module Gatys.
Section Loss.
Context {A : Type} `{Elt A}.

(** [Style_Layers, Content_Layers = [0, 5, 10, 19, 28], [21]] *)
Definition Style_Layers : list Z := [0; 5; 10; 19; 28]%Z.
Definition Content_Layers : list Z := [21]%Z.

(** [CONTENT_WEIGHT, STYLE_WEIGHT, TV_WEIGHT = 8, 5000, 80] *)
Definition CONTENT_WEIGHT : Z := 8.
Definition STYLE_WEIGHT : Z := 5000.
Definition TV_WEIGHT : Z := 80.

Definition weighted (w : Z) (x : A) : A := tmul x (tlit (Qc_of_Z w)).

(** [sum(styles_l) / len(styles_l)] *)
Definition style_term (styles_l : list A) : pyresult (pynum A) :=
  py_truediv (py_sum styles_l) (py_len styles_l).

Definition compute_loss (X : tensor4 A) (contents_Y_hat styles_Y_hat : list (tensor4 A))
    (contents_Y_ : list (tensor4 A)) (styles_Y_gram : list (matrix A))
  : pyresult (list A * list A * A * pynum A) :=
  contents_l <- mapM (fun p => l <- content_loss (fst p) (snd p) ;;
                               Ok (weighted CONTENT_WEIGHT l))
                     (combine contents_Y_hat contents_Y_) ;;
  styles_l <- mapM (fun p => l <- style_loss (fst p) (snd p) ;;
                             Ok (weighted STYLE_WEIGHT l))
                   (combine styles_Y_hat styles_Y_gram) ;;
  tv <- tv_loss X ;;
  let tv_l := weighted TV_WEIGHT tv in
  s <- style_term styles_l ;;
  let l_ := py_add (py_add s (py_sum contents_l)) (PyTensor tv_l) in
  Ok (contents_l, styles_l, tv_l, l_).

End Loss.

Section Training.
Context {A : Type} `{Elt A}.
Variable T : torch_optim A.
(** [torch.rand] at a shape, and the global [Incomplete_CNN] *)
Variable rand : nat * nat * nat * nat -> tensor4 A.
(** [torchvision.transforms.Resize] on a tensor, and the global
    [Content_Size] *)
Variable Resize : nat * nat -> tensor3 A -> tensor3 A.
Variable Content_Size : nat * nat.
Variable net : list (layer A).
Variables content_layers style_layers : list Z.

(** [SynthesizedImage(X.shape)] holds a parameter of random entries of
    the shape of [X]; [weight.data.copy_(X.data)] overwrites its data; the
    trainer is L-BFGS. *)
Definition get_inits (X : tensor4 A) (lr : Qc) (styles_Y_ : list (tensor4 A))
  : pyresult (tensor4 A * list (matrix A) * optimizer T) :=
  let weight := rand (shape4 X) in
  data <- copy_ weight (map4 tdetach X) ;;
  let gen_img := map4 tparam data in
  let trainer := LBFGS (LBFGS_new T) in
  styles_Y_gram <- mapM gram styles_Y_ ;;
  Ok (gen_img, styles_Y_gram, trainer).

(** The total loss of an image against the references: what [closure]
    computes and hands to [backward]. *)
Definition loss (contents_Y_ : list (tensor4 A)) (styles_Y_gram : list (matrix A))
    (X : tensor4 A) : pyresult A :=
  let hats := extract_features net X content_layers style_layers in
  r <- compute_loss X (fst hats) (snd hats) contents_Y_ styles_Y_gram ;;
  as_tensor (snd r).

(** The image written every 20 epochs:
    [img = X[0].detach()]; [img = Resize(Content_Size)(img)];
    [torch.clamp(img.permute(1, 2, 0) * RGB_STD + RGB_MEAN, 0, 1).permute(2, 0, 1)] *)
Definition snapshot (X : tensor4 A) : pyresult (tensor3 A) :=
  img <- getitem_0 X ;;
  let img := detach3 img in
  let img := Resize Content_Size img in
  y <- broadcast_last tmul (permute_1_2_0 img) RGB_STD ;;
  z <- broadcast_last tadd y RGB_MEAN ;;
  Ok (permute_2_0_1 (clamp z 0%Qc 1%Qc)).

(** One pass through the body of [for epoch in range(num_epochs)]. *)
Definition epoch_body (st : run T) (epoch : Z) : pyresult (run T) :=
  let closure := loss (contents_Y st) (styles_Y_gram_ st) in
  r <- match trainer st with
       | LBFGS s =>
           p <- LBFGS_step T closure (lr_ st) s (X_ st) ;;
           ll <- closure (snd p) ;;
           Ok (LBFGS (fst p), snd p, ll)
       | Adam s =>
           ll <- closure (X_ st) ;;
           let p := Adam_step T closure (lr_ st) s (X_ st) in
           Ok (Adam (fst p), snd p, ll)
       end ;;
  let '(trainer', X', ll) := r in
  let w1 := writer st ++ [add_scalar ll epoch] in
  w2 <- (if ((epoch + 1) mod 20 =? 0)%Z
         then img <- snapshot X' ;;
              Ok (w1 ++ [add_image (data img) ((epoch + 1) / 20)%Z])
         else Ok w1) ;;
  s <- scheduler_step (scheduler st) (lr_ st) ;;
  Ok (MkRun X' trainer' (snd s) (fst s) w2 (contents_Y st) (styles_Y_gram_ st)).

Fixpoint epochs (l : list Z) (st : run T) : pyresult (run T) :=
  match l with
  | [] => Ok st
  | epoch :: l' => st' <- epoch_body st epoch ;; epochs l' st'
  end.

(** [train] up to its [return X]: the whole final state. *)
Definition train_run (X : tensor4 A) (contents_Y_ styles_Y_ : list (tensor4 A))
    (lr : Qc) (num_epochs lr_decay_epoch : Z) : pyresult (run T) :=
  i <- get_inits X lr styles_Y_ ;;
  let '(X, styles_Y_gram, trainer) := i in
  let scheduler := MkStepLR lr_decay_epoch (Q2Qc (8 # 10)) 0 in
  epochs (py_range num_epochs)
         (MkRun X trainer lr scheduler [] contents_Y_ styles_Y_gram).

Definition train (X : tensor4 A) (contents_Y_ styles_Y_ : list (tensor4 A))
    (lr : Qc) (num_epochs lr_decay_epoch : Z) : pyresult (tensor4 A) :=
  st <- train_run X contents_Y_ styles_Y_ lr num_epochs lr_decay_epoch ;;
  Ok (X_ st).

End Training.

Section Program.
Context {A : Type} `{Elt A}.
Variable T : torch_optim A.
Variable rand : nat * nat * nat * nat -> tensor4 A.
Variable Resize : nat * nat -> tensor3 A -> tensor3 A.
Variable Content_Size : nat * nat.

(** The module from top to bottom: the truncated network is built first;
    then the references are extracted ([get_contents], [get_styles]) from
    the two preprocessed images, and [train] runs. *)
Definition program (features : list (layer A)) (content_layers style_layers : list Z)
    (content_X style_X : tensor4 A) (lr : Qc) (num_epochs lr_decay_epoch : Z)
  : pyresult (tensor4 A) :=
  net <- Incomplete_CNN features content_layers style_layers ;;
  let Content_Y := fst (extract_features net content_X content_layers style_layers) in
  let Style_Y := snd (extract_features net style_X content_layers style_layers) in
  train T rand Resize Content_Size net content_layers style_layers
        content_X Content_Y Style_Y lr num_epochs lr_decay_epoch.

End Program.
End Gatys.

(** ** main.py *)

Module Main.
Section Loss.
Context {A : Type} `{Elt A}.

(** [style_layers, content_layers = [0, 5, 10, 19, 28], [21]] *)
Definition style_layers : list Z := [0; 5; 10; 19; 28]%Z.
Definition content_layers : list Z := [21]%Z.

(** [content_weight, style_weight, tv_weight = 8, 5000, 0] *)
Definition content_weight : Z := 8.
Definition style_weight : Z := 5000.
Definition tv_weight : Z := 0.

Definition weighted (w : Z) (x : A) : A := tmul x (tlit (Qc_of_Z w)).

(** [sum(styles_l) / 5] *)
Definition style_term (styles_l : list A) : pyresult (pynum A) :=
  py_truediv (py_sum styles_l) 5.

Definition compute_loss (X : tensor4 A) (contents_Y_hat styles_Y_hat : list (tensor4 A))
    (contents_Y_ : list (tensor4 A)) (styles_Y_gram : list (matrix A))
  : pyresult (list A * list A * A * pynum A) :=
  contents_l <- mapM (fun p => l <- content_loss (fst p) (snd p) ;;
                               Ok (weighted content_weight l))
                     (combine contents_Y_hat contents_Y_) ;;
  styles_l <- mapM (fun p => l <- style_loss (fst p) (snd p) ;;
                             Ok (weighted style_weight l))
                   (combine styles_Y_hat styles_Y_gram) ;;
  tv <- tv_loss X ;;
  let tv_l := weighted tv_weight tv in
  s <- style_term styles_l ;;
  let l_ := py_add (py_add s (py_sum contents_l)) (py_sum [tv_l]) in
  Ok (contents_l, styles_l, tv_l, l_).

End Loss.

Section Training.
Context {A : Type} `{Elt A}.
Variable T : torch_optim A.
(** [preprocess(content_img, image_shape)] and the global [net] *)
Variable preprocessed_content : tensor4 A.
Variable net : list (layer A).
Variables content_layers_ style_layers_ : list Z.

(** [SynthesizedImage] ignores its [img_shape] and holds the preprocessed
    content image as its parameter; [copy_] overwrites its data with that
    of [X]; the trainer is Adam, whose constructor refuses a negative
    learning rate with a [ValueError]. *)
Definition get_inits (X : tensor4 A) (lr : Qc) (styles_Y_ : list (tensor4 A))
  : pyresult (tensor4 A * list (matrix A) * optimizer T) :=
  let weight := preprocessed_content in
  data <- copy_ weight (map4 tdetach X) ;;
  let gen_img := map4 tparam data in
  trainer <- (if is_neg lr then Raise ValueError else Ok (Adam (Adam_new T))) ;;
  styles_Y_gram <- mapM gram styles_Y_ ;;
  Ok (gen_img, styles_Y_gram, trainer).

Definition loss (contents_Y_ : list (tensor4 A)) (styles_Y_gram : list (matrix A))
    (X : tensor4 A) : pyresult A :=
  let hats := extract_features net X content_layers_ style_layers_ in
  r <- compute_loss X (fst hats) (snd hats) contents_Y_ styles_Y_gram ;;
  as_tensor (snd r).

(** [ll.backward()], [trainer.step()]: the optimizer is stepped without a
    closure, which L-BFGS does not accept. *)
Definition epoch_body (st : run T) (epoch : Z) : pyresult (run T) :=
  let closure := loss (contents_Y st) (styles_Y_gram_ st) in
  ll <- closure (X_ st) ;;
  r <- match trainer st with
       | Adam s =>
           let p := Adam_step T closure (lr_ st) s (X_ st) in
           Ok (Adam (fst p), snd p)
       | LBFGS _ => Raise TypeError
       end ;;
  let w1 := writer st ++ [add_scalar ll epoch] in
  s <- scheduler_step (scheduler st) (lr_ st) ;;
  Ok (MkRun (snd r) (fst r) (snd s) (fst s) w1 (contents_Y st) (styles_Y_gram_ st)).

Fixpoint epochs (l : list Z) (st : run T) : pyresult (run T) :=
  match l with
  | [] => Ok st
  | epoch :: l' => st' <- epoch_body st epoch ;; epochs l' st'
  end.

Definition train_run (X : tensor4 A) (contents_Y_ styles_Y_ : list (tensor4 A))
    (lr : Qc) (num_epochs lr_decay_epoch : Z) : pyresult (run T) :=
  i <- get_inits X lr styles_Y_ ;;
  let '(X, styles_Y_gram, trainer) := i in
  let scheduler := MkStepLR lr_decay_epoch (Q2Qc (8 # 10)) 0 in
  epochs (py_range num_epochs)
         (MkRun X trainer lr scheduler [] contents_Y_ styles_Y_gram).

Definition train (X : tensor4 A) (contents_Y_ styles_Y_ : list (tensor4 A))
    (lr : Qc) (num_epochs lr_decay_epoch : Z) : pyresult (tensor4 A) :=
  st <- train_run X contents_Y_ styles_Y_ lr num_epochs lr_decay_epoch ;;
  Ok (X_ st).

End Training.
End Main.

(** ** Shapes, entries and the properties the specification talks about *)

Section Shapes.
Context {A : Type}.

(** [X] has shape [(N, C, H, W)]. *)
Definition has_shape (N C H W : nat) (X : tensor4 A) : Prop :=
  length X = N /\
  Forall (fun img => length img = C /\
    Forall (fun ch => length ch = H /\
      Forall (fun row => length row = W) ch) img) X.

(** [X[n, c, h, w]] *)
Definition get4 (d : A) (X : tensor4 A) (n c h w : nat) : A :=
  nth w (nth h (nth c (nth n X []) []) []) d.

(** The tensor of shape [(N, C, H, W)] with entries [f n c h w]. *)
Definition tab4 (N C H W : nat) (f : nat -> nat -> nat -> nat -> A) : tensor4 A :=
  map (fun n => map (fun c => map (fun h => map (fun w => f n c h w)
    (seq 0 W)) (seq 0 H)) (seq 0 C)) (seq 0 N).

Definition all4 (P : A -> Prop) (X : tensor4 A) : Prop :=
  Forall (Forall (Forall (Forall P))) X.


(** A [(r, c)] matrix whose rows are all there. *)
Definition is_matrix (r c : nat) (M : matrix A) : Prop :=
  nrows M = r /\ ncols M = c /\ length (rows M) = r /\
  Forall (fun row => length row = c) (rows M).

End Shapes.


(** The absolute differences of vertical and of horizontal neighbours, in
    storage order. *)
Definition vertical_differences (N C H W : nat) (X : tensor4 scalar) : list scalar :=
  flatten4 (tab4 N C (H - 1) W (fun n c h w =>
    sabs (ssub (get4 NaN X n c (S h) w) (get4 NaN X n c h w)))).

Definition horizontal_differences (N C H W : nat) (X : tensor4 scalar) : list scalar :=
  flatten4 (tab4 N C H (W - 1) (fun n c h w =>
    sabs (ssub (get4 NaN X n c h (S w)) (get4 NaN X n c h w)))).

Definition half : scalar := Fin (Q2Qc (1 # 2)).

(** The Gram statistic as the specification words it: the tensor of shape
    [(1, C, H, W)] reshaped to [(C, H*W)], one row per channel, times its own
    transpose, divided by [H*W]. *)
Section GramSpec.
Context {A : Type} {EA : Elt A}.

Definition channel_rows (X : tensor4 A) : list (list A) :=
  map (@concat A) (hd [] X).

Definition gram_spec (H W : nat) (X : tensor4 A) : matrix A :=
  let R := channel_rows X in
  tabulate (length R) (length R) (fun i j =>
    tdiv (tsum (map (fun k => tmul (nth k (nth i R []) (tlit 0%Qc))
                                   (nth k (nth j R []) (tlit 0%Qc)))
                    (seq 0 (H * W))))
         (tlit (Qc_of_nat (H * W)))).

End GramSpec.

(** The per-layer losses that [compute_loss] weighs and adds up, and the
    combination rule of the specification:
    [content_weight * sum(content_losses) + style_weight * mean(style_losses)
     + tv_weight * tv_loss]. *)
Section LossSpec.
Context {A : Type} {EA : Elt A}.

Definition content_losses (contents_Y_hat contents_Y_ : list (tensor4 A))
  : pyresult (list A) :=
  mapM (fun p => content_loss (fst p) (snd p)) (combine contents_Y_hat contents_Y_).

Definition style_losses (styles_Y_hat : list (tensor4 A))
    (styles_Y_gram : list (matrix A)) : pyresult (list A) :=
  mapM (fun p => style_loss (fst p) (snd p)) (combine styles_Y_hat styles_Y_gram).

End LossSpec.




Definition f32_finite (x : float32) : Prop :=
  match x with S754_zero _ | S754_finite _ _ _ => True | _ => False end.

Definition f32_nonneg (x : float32) : Prop :=
  match x with
  | S754_zero _ | S754_finite false _ _ | S754_infinity false => True
  | _ => False
  end.

(** A binary32 value of sign [s] that is not NaN. *)
Definition has_sign (s : bool) (r : float32) : Prop :=
  match r with
  | S754_zero s' | S754_infinity s' | S754_finite s' _ _ => s' = s
  | S754_nan => False
  end.

(** Concrete collaborators to run the program on: an optimizer that
    evaluates the loss and leaves the image where it is, and a [rand] that
    fills the requested shape with one half. *)
Definition still_optim : torch_optim scalar := {|
  LBFGS_state := unit;
  Adam_state := unit;
  LBFGS_new := tt;
  Adam_new := tt;
  LBFGS_step := fun closure _ s X => _ <- closure X ;; Ok (s, X);
  Adam_step := fun _ _ s X => (s, X)
|}.

Definition rand_half (shape : nat * nat * nat * nat) : tensor4 scalar :=
  let '(N, C, H, W) := shape in tab4 N C H W (fun _ _ _ _ => half).

(** The steps under which a loss was written to the telemetry writer. *)
Definition scalar_steps {A} (w : list (record A)) : list Z :=
  flat_map (fun r => match r with add_scalar _ step => [step] | add_image _ _ => [] end) w.

(** The graph nodes of a tracked value all lie in [S]. *)
Definition within (S : list nat) (x : tracked) : Prop := incl (hist x) S.

(** The activation of depth [i]: the image after the layers [0 .. i] of the
    network, and the depths of [range(n)] that a layer list asks for, in
    network order. *)
Definition activation {A} (net : list (layer A)) (X : tensor4 A) (i : nat) : tensor4 A :=
  fold_left (fun x (f : layer A) => f x) (firstn (S i) net) X.

Definition requested (layers : list Z) (n : nat) : list nat :=
  filter (fun i => py_in (Z.of_nat i) layers) (seq 0 n).

(** The steps under which an image was written to the telemetry writer. *)
Definition image_steps {A} (w : list (record A)) : list Z :=
  flat_map (fun r => match r with add_scalar _ _ => [] | add_image _ step => [step] end) w.

(** ** Images: [preprocess] and [postprocess]

    PIL images and the torchvision transforms that read or make them
    ([Resize], [ToTensor], [ToPILImage]) are taken as they come. *)

(** [torchvision.transforms.Normalize(mean, std)] on a [(C, H, W)] tensor:
    a zero in [std] is a [ValueError]; [mean] and [std] are viewed as
    [(-1, 1, 1)] and subtracted and divided in place, which needs their
    length to be [C] or 1. *)
Definition Normalize (mean std : list scalar) (t : tensor3 scalar)
  : pyresult (tensor3 scalar) :=
  let '(a, b, c) := dims t in
  let pick (v : list scalar) (i : nat) := nth (if Nat.eqb (length v) 1 then 0 else i) v NaN in
  if existsb (fun s => match s with Fin q => is_zero q | _ => false end) std
  then Raise ValueError
  else if (Nat.eqb (length mean) a || Nat.eqb (length mean) 1) &&
          (Nat.eqb (length std) a || Nat.eqb (length std) 1)
  then Ok (T3 (a, b, c)
              (tab3 a b c (fun i j k =>
                 sdiv (ssub (get3 (data t) i j k) (pick mean i)) (pick std i))))
  else Raise RuntimeError.

(** [t.unsqueeze(0)] *)
Definition unsqueeze_0 (t : tensor3 scalar) : tensor4 scalar := [data t].

Section Images.
Variable PIL : Type.
Variable Resize : nat * nat -> PIL -> PIL.
Variable ToTensor : PIL -> tensor3 scalar.

(** [preprocess], the same text in both files *)
Definition preprocess (img : PIL) (image_shape_ : nat * nat) : pyresult (tensor4 scalar) :=
  t <- Normalize RGB_MEAN RGB_STD (ToTensor (Resize image_shape_ img)) ;;
  Ok (unsqueeze_0 t).

End Images.

Module GatysImages.
Section Postprocess.
Variable PIL : Type.
Variable ToPILImage : tensor3 scalar -> pyresult PIL.
(** [torchvision.transforms.Resize] on a tensor, and the global
    [Content_Size] *)
Variable Resize : nat * nat -> tensor3 scalar -> tensor3 scalar.
Variable Content_Size : nat * nat.

Definition postprocess (img : tensor4 scalar) : pyresult PIL :=
  img <- getitem_0 img ;;
  let img := Resize Content_Size img in
  y <- broadcast_last smul (permute_1_2_0 img) RGB_STD ;;
  z <- broadcast_last sadd y RGB_MEAN ;;
  let img := clamp z 0%Qc 1%Qc in
  ToPILImage (permute_2_0_1 img).

End Postprocess.

Section References.
Variable PIL : Type.
Variable Resize : nat * nat -> PIL -> PIL.
Variable ToTensor : PIL -> tensor3 scalar.
Variable ToPILImage : tensor3 scalar -> pyresult PIL.
Variable Resize_tensor : nat * nat -> tensor3 scalar -> tensor3 scalar.
(** The globals [Content_Image], [Style_Image], [Content_Size],
    [Incomplete_CNN], [Content_Layers] and [Style_Layers] *)
Variables Content_Image Style_Image : PIL.
Variable Content_Size : nat * nat.
Variable net : list (layer scalar).
Variables Content_Layers Style_Layers : list Z.

(** [postprocess(content_X_)] is called and its result dropped. *)
Definition get_contents (image_shape_ : nat * nat)
  : pyresult (tensor4 scalar * list (tensor4 scalar)) :=
  content_X_ <- preprocess Resize ToTensor Content_Image image_shape_ ;;
  _ <- postprocess ToPILImage Resize_tensor Content_Size content_X_ ;;
  let contents_Y_ := fst (extract_features net content_X_ Content_Layers Style_Layers) in
  Ok (content_X_, contents_Y_).

Definition get_styles (image_shape_ : nat * nat)
  : pyresult (tensor4 scalar * list (tensor4 scalar)) :=
  style_X <- preprocess Resize ToTensor Style_Image image_shape_ ;;
  let styles_Y_ := snd (extract_features net style_X Content_Layers Style_Layers) in
  Ok (style_X, styles_Y_).

End References.
End GatysImages.

Module MainImages.
Section Postprocess.
Variable PIL : Type.
Variable ToPILImage : tensor3 scalar -> pyresult PIL.

Definition postprocess (img : tensor4 scalar) : pyresult PIL :=
  img <- getitem_0 img ;;
  y <- broadcast_last smul (permute_1_2_0 img) RGB_STD ;;
  z <- broadcast_last sadd y RGB_MEAN ;;
  let img := clamp z 0%Qc 1%Qc in
  ToPILImage (permute_2_0_1 img).

End Postprocess.

Section References.
Variable PIL : Type.
Variable Resize : nat * nat -> PIL -> PIL.
Variable ToTensor : PIL -> tensor3 scalar.
(** The globals [content_img], [style_img], [net], [content_layers] and
    [style_layers] *)
Variables content_img style_img : PIL.
Variable net : list (layer scalar).
Variables content_layers style_layers : list Z.

Definition get_contents (image_shape_ : nat * nat)
  : pyresult (tensor4 scalar * list (tensor4 scalar)) :=
  content_X_ <- preprocess Resize ToTensor content_img image_shape_ ;;
  let contents_Y_ := fst (extract_features net content_X_ content_layers style_layers) in
  Ok (content_X_, contents_Y_).

Definition get_styles (image_shape_ : nat * nat)
  : pyresult (tensor4 scalar * list (tensor4 scalar)) :=
  style_X <- preprocess Resize ToTensor style_img image_shape_ ;;
  let styles_Y_ := snd (extract_features net style_X content_layers style_layers) in
  Ok (style_X, styles_Y_).

End References.

Section Program.
Variable T : torch_optim scalar.
Variable PIL : Type.
Variable Resize : nat * nat -> PIL -> PIL.
Variable ToTensor : PIL -> tensor3 scalar.
Variable ToPILImage : tensor3 scalar -> pyresult PIL.

(** The module from top to bottom: the truncated network, the two
    references, [train] (whose [SynthesizedImage] preprocesses the content
    image once more) and [postprocess] of its output. *)
Definition program (features : list (layer scalar)) (content_layers style_layers : list Z)
    (content_img style_img : PIL) (image_shape : nat * nat)
    (lr : Qc) (num_epochs lr_decay_epoch : Z) : pyresult PIL :=
  net <- Incomplete_CNN features content_layers style_layers ;;
  c <- get_contents Resize ToTensor content_img net content_layers style_layers
                    image_shape ;;
  s <- get_styles Resize ToTensor style_img net content_layers style_layers
                  image_shape ;;
  weight <- preprocess Resize ToTensor content_img image_shape ;;
  output <- Main.train T weight net content_layers style_layers
                       (fst c) (snd c) (snd s) lr num_epochs lr_decay_epoch ;;
  postprocess ToPILImage output.

End Program.
End MainImages.

(** A 3-D tensor whose entries fill its shape, and entries that are
    numbers of the unit interval. *)
Definition well_formed (t : tensor3 scalar) : Prop :=
  let '(a, b, c) := dims t in has_shape 1 a b c [data t].

Definition unit_interval (x : scalar) : Prop :=
  exists q, x = Fin q /\ (0 <= q)%Qc /\ (q <= 1)%Qc.

(** What [postprocess] can denormalise: a well-formed tensor of 3 channels,
    or of 1, without NaN; and what it hands to [ToPILImage]: a well-formed
    tensor of 3 channels with entries from 0 to 1. *)
Definition presentable (t : tensor3 scalar) (b c : nat) : Prop :=
  (exists a, dims t = (a, b, c) /\ (a = 3 \/ a = 1)) /\
  well_formed t /\ all4 (fun x => x <> NaN) [data t].

Definition displayable (t : tensor3 scalar) (b c : nat) : Prop :=
  dims t = (3, b, c) /\ well_formed t /\ all4 unit_interval [data t].

(** * Properties *)

Lemma Ok_inj {B} (a b : B) : Ok a = Ok b -> a = b.
Proof. now intros [= ->]. Qed.

(** ** Lists by index *)

Lemma map_seq_S {B} (g : nat -> B) (a n : nat) :
  map g (seq (S a) n) = map (fun i => g (S i)) (seq a n).
Proof. now rewrite <- seq_shift, map_map. Qed.

Lemma list_tabulate {B} (d : B) (l : list B) (n : nat) :
  length l = n -> l = map (fun i => nth i l d) (seq 0 n).
Proof.
  revert n; induction l as [|x l IH]; intros n Hn; subst n; simpl.
  - reflexivity.
  - rewrite map_seq_S. f_equal. now apply IH.
Qed.

Lemma nth_tl {B} (d : B) (l : list B) (i : nat) : nth i (tl l) d = nth (S i) l d.
Proof. destruct l; simpl; [now destruct i | reflexivity]. Qed.

Lemma nth_removelast {B} (d : B) (l : list B) (i : nat) :
  S i < length l -> nth i (removelast l) d = nth i l d.
Proof.
  revert i; induction l as [|x l IH]; intros i Hi; simpl in *; [lia|].
  destruct l as [|y l]; simpl in *; [lia|].
  destruct i; [reflexivity|]. apply IH. lia.
Qed.

Lemma length_tl {B} (l : list B) : length (tl l) = length l - 1.
Proof. destruct l; simpl; lia. Qed.

Lemma length_removelast {B} (l : list B) : length (removelast l) = length l - 1.
Proof.
  induction l as [|x l IH]; simpl; [reflexivity|].
  destruct l; simpl in *; lia.
Qed.

Lemma zip_exact_tabulate {B1 B2 B3} (f : B1 -> B2 -> pyresult B3) (g : nat -> B3)
    (d1 : B1) (d2 : B2) (l1 : list B1) (l2 : list B2) (n : nat) :
  length l1 = n -> length l2 = n ->
  (forall i, i < n -> f (nth i l1 d1) (nth i l2 d2) = Ok (g i)) ->
  zip_exact f l1 l2 = Ok (map g (seq 0 n)).
Proof.
  revert l2 n g; induction l1 as [|a l1 IH]; intros [|b l2] n g H1 H2 Hf;
    simpl in *; subst n; try discriminate; try reflexivity.
  rewrite (Hf 0) by lia. simpl.
  rewrite (IH l2 (length l1) (fun i => g (S i))); try lia.
  - simpl. now rewrite map_seq_S.
  - intros i Hi. apply (Hf (S i)). lia.
Qed.

(** ** Rectangular tensors are tables of their entries *)

Section ShapeFacts.
Context {A : Type}.
Implicit Types X Y : tensor4 A.

Lemma has_shape_img N C H W X n :
  has_shape N C H W X -> n < N ->
  length (nth n X []) = C /\
  Forall (fun ch => length ch = H /\ Forall (fun row => length row = W) ch)
         (nth n X []).
Proof.
  intros [HN HX] Hn. rewrite Forall_forall in HX.
  apply HX, nth_In. lia.
Qed.

Lemma has_shape_channel N C H W X n c :
  has_shape N C H W X -> n < N -> c < C ->
  length (nth c (nth n X []) []) = H /\
  Forall (fun row => length row = W) (nth c (nth n X []) []).
Proof.
  intros HS Hn Hc. destruct (has_shape_img HS Hn) as [HC Himg].
  rewrite Forall_forall in Himg. apply Himg, nth_In. lia.
Qed.

Lemma has_shape_row N C H W X n c h :
  has_shape N C H W X -> n < N -> c < C -> h < H ->
  length (nth h (nth c (nth n X []) []) []) = W.
Proof.
  intros HS Hn Hc Hh. destruct (has_shape_channel HS Hn Hc) as [HH Hch].
  rewrite Forall_forall in Hch. apply Hch, nth_In. lia.
Qed.

Lemma has_shape_tab4 (d : A) N C H W X :
  has_shape N C H W X -> X = tab4 N C H W (get4 d X).
Proof.
  intros HS. unfold tab4, get4.
  rewrite (list_tabulate [] X (n := N)) at 1 by apply HS.
  apply map_ext_in. intros n Hn. apply in_seq in Hn.
  rewrite (list_tabulate [] (nth n X []) (n := C)) at 1
    by (apply (has_shape_img HS); lia).
  apply map_ext_in. intros c Hc. apply in_seq in Hc.
  rewrite (list_tabulate [] (nth c (nth n X []) []) (n := H)) at 1
    by (apply (has_shape_channel HS); lia).
  apply map_ext_in. intros h Hh. apply in_seq in Hh.
  apply list_tabulate.
  apply (has_shape_row HS); lia.
Qed.

End ShapeFacts.

Section TableFacts.
Context {A : Type}.
Implicit Types X Y : tensor4 A.

Lemma tab4_ext N C H W (f g : nat -> nat -> nat -> nat -> A) :
  (forall n c h w, n < N -> c < C -> h < H -> w < W -> f n c h w = g n c h w) ->
  tab4 N C H W f = tab4 N C H W g.
Proof.
  intros E. unfold tab4.
  apply map_ext_in; intros n Hn; apply in_seq in Hn.
  apply map_ext_in; intros c Hc; apply in_seq in Hc.
  apply map_ext_in; intros h Hh; apply in_seq in Hh.
  apply map_ext_in; intros w Hw; apply in_seq in Hw.
  apply E; lia.
Qed.

Lemma has_shape_of_tab4 N C H W (f : nat -> nat -> nat -> nat -> A) :
  has_shape N C H W (tab4 N C H W f).
Proof.
  unfold has_shape, tab4. split; [now rewrite length_map, length_seq|].
  apply Forall_map, Forall_forall; intros n _.
  split; [now rewrite length_map, length_seq|].
  apply Forall_map, Forall_forall; intros c _.
  split; [now rewrite length_map, length_seq|].
  apply Forall_map, Forall_forall; intros h _.
  now rewrite length_map, length_seq.
Qed.

Lemma nth_map_seq {B} (g : nat -> B) (d : B) (n i : nat) :
  i < n -> nth i (map g (seq 0 n)) d = g i.
Proof.
  intros Hi. rewrite (nth_indep _ d (g 0)) by now rewrite length_map, length_seq.
  rewrite (map_nth g (seq 0 n) 0 i), seq_nth by assumption. reflexivity.
Qed.

Lemma flatten4_tab4_length N C H W (f : nat -> nat -> nat -> nat -> A) :
  length (flatten4 (tab4 N C H W f)) = N * C * H * W.
Proof.
  assert (L1 : forall (g : nat -> list A) k m,
             (forall i, length (g i) = m) ->
             length (concat (map g (seq 0 k))) = k * m).
  { intros g k m Hg. generalize 0.
    induction k as [|k IH]; intros a; simpl; [reflexivity|].
    rewrite length_app, Hg, IH. lia. }
  unfold flatten4, tab4. rewrite map_map.
  rewrite (L1 _ N (C * H * W)); [lia|]. intros n.
  rewrite map_map. rewrite (L1 _ C (H * W)); [lia|]. intros c.
  rewrite (L1 _ H W); [lia|]. intros h.
  now rewrite length_map, length_seq.
Qed.

Lemma in_flatten4_tab4 N C H W (f : nat -> nat -> nat -> nat -> A) (x : A) :
  In x (flatten4 (tab4 N C H W f)) <->
  exists n c h w, n < N /\ c < C /\ h < H /\ w < W /\ x = f n c h w.
Proof.
  unfold flatten4, tab4. rewrite !map_map. split.
  - intros Hx. apply in_concat in Hx as (l1 & Hl1 & Hx).
    apply in_map_iff in Hl1 as (n & <- & Hn). apply in_seq in Hn.
    apply in_concat in Hx as (l2 & Hl2 & Hx). rewrite map_map in Hl2.
    apply in_map_iff in Hl2 as (c & <- & Hc). apply in_seq in Hc.
    apply in_concat in Hx as (l3 & Hl3 & Hx).
    apply in_map_iff in Hl3 as (h & <- & Hh). apply in_seq in Hh.
    apply in_map_iff in Hx as (w & <- & Hw). apply in_seq in Hw.
    exists n, c, h, w. repeat split; lia.
  - intros (n & c & h & w & Hn & Hc & Hh & Hw & ->).
    apply in_concat. eexists. split.
    { apply in_map_iff. exists n. split; [reflexivity|apply in_seq; lia]. }
    apply in_concat. eexists. split.
    { rewrite map_map. apply in_map_iff. exists c.
      split; [reflexivity|apply in_seq; lia]. }
    apply in_concat. eexists. split.
    { apply in_map_iff. exists h. split; [reflexivity|apply in_seq; lia]. }
    apply in_map_iff. exists w. split; [reflexivity|apply in_seq; lia].
Qed.

Lemma has_shape_rows_from_1 N C H W X :
  has_shape N C H W X -> has_shape N C (H - 1) W (rows_from_1 X).
Proof.
  intros [HN HX]. unfold rows_from_1. split; [now rewrite length_map|].
  apply Forall_map. eapply Forall_impl; [|exact HX]. intros img [HC Himg].
  split; [now rewrite length_map|].
  apply Forall_map. eapply Forall_impl; [|exact Himg]. intros ch [HH Hch].
  split; [rewrite length_tl; lia|].
  destruct ch; simpl; [constructor|now inversion Hch].
Qed.

Lemma has_shape_rows_to_last N C H W X :
  has_shape N C H W X -> has_shape N C (H - 1) W (rows_to_last X).
Proof.
  intros [HN HX]. unfold rows_to_last. split; [now rewrite length_map|].
  apply Forall_map. eapply Forall_impl; [|exact HX]. intros img [HC Himg].
  split; [now rewrite length_map|].
  apply Forall_map. eapply Forall_impl; [|exact Himg]. intros ch [HH Hch].
  split; [rewrite length_removelast; lia|].
  rewrite Forall_forall in *. intros row Hrow. apply Hch.
  clear -Hrow. induction ch as [|r ch IH]; simpl in *; [contradiction|].
  destruct ch; simpl in *; [contradiction|].
  destruct Hrow; auto.
Qed.

Lemma has_shape_cols_from_1 N C H W X :
  has_shape N C H W X -> has_shape N C H (W - 1) (cols_from_1 X).
Proof.
  intros [HN HX]. unfold cols_from_1. split; [now rewrite length_map|].
  apply Forall_map. eapply Forall_impl; [|exact HX]. intros img [HC Himg].
  split; [now rewrite length_map|].
  apply Forall_map. eapply Forall_impl; [|exact Himg]. intros ch [HH Hch].
  split; [now rewrite length_map|].
  apply Forall_map. eapply Forall_impl; [|exact Hch]. intros row HW.
  simpl in *. rewrite length_tl. lia.
Qed.

Lemma has_shape_cols_to_last N C H W X :
  has_shape N C H W X -> has_shape N C H (W - 1) (cols_to_last X).
Proof.
  intros [HN HX]. unfold cols_to_last. split; [now rewrite length_map|].
  apply Forall_map. eapply Forall_impl; [|exact HX]. intros img [HC Himg].
  split; [now rewrite length_map|].
  apply Forall_map. eapply Forall_impl; [|exact Himg]. intros ch [HH Hch].
  split; [now rewrite length_map|].
  apply Forall_map. eapply Forall_impl; [|exact Hch]. intros row HW.
  simpl in *. rewrite length_removelast. lia.
Qed.

Lemma get4_rows_from_1 (d : A) X n c h w :
  get4 d (rows_from_1 X) n c h w = get4 d X n c (S h) w.
Proof.
  unfold get4, rows_from_1.
  change (@nil (list (list A))) with (map (@tl (list A)) []) at 1.
  rewrite map_nth.
  change (@nil (list A)) with (tl (@nil (list A))) at 1.
  rewrite map_nth, nth_tl. reflexivity.
Qed.

Lemma get4_cols_from_1 (d : A) X n c h w :
  get4 d (cols_from_1 X) n c h w = get4 d X n c h (S w).
Proof.
  unfold get4, cols_from_1.
  change (@nil (list (list A))) with (map (map (@tl A)) []) at 1.
  rewrite map_nth.
  change (@nil (list A)) with (map (@tl A) []) at 1.
  rewrite map_nth.
  change (@nil A) with (tl (@nil A)) at 1.
  rewrite map_nth, nth_tl. reflexivity.
Qed.

Lemma get4_rows_to_last (d : A) N C H W X n c h w :
  has_shape N C H W X -> n < N -> c < C -> S h < H ->
  get4 d (rows_to_last X) n c h w = get4 d X n c h w.
Proof.
  intros HS Hn Hc Hh. unfold get4, rows_to_last.
  change (@nil (list (list A))) with (map (@removelast (list A)) []) at 1.
  rewrite map_nth.
  change (@nil (list A)) with (removelast (@nil (list A))) at 1.
  rewrite map_nth, nth_removelast; [reflexivity|].
  destruct (has_shape_channel HS Hn Hc) as [-> _]. exact Hh.
Qed.

Lemma get4_cols_to_last (d : A) N C H W X n c h w :
  has_shape N C H W X -> n < N -> c < C -> h < H -> S w < W ->
  get4 d (cols_to_last X) n c h w = get4 d X n c h w.
Proof.
  intros HS Hn Hc Hh Hw. unfold get4, cols_to_last.
  change (@nil (list (list A))) with (map (map (@removelast A)) []) at 1.
  rewrite map_nth.
  change (@nil (list A)) with (map (@removelast A) []) at 1.
  rewrite map_nth.
  change (@nil A) with (removelast (@nil A)) at 1.
  rewrite map_nth, nth_removelast; [reflexivity|].
  rewrite (has_shape_row HS Hn Hc Hh). exact Hw.
Qed.

End TableFacts.

(** ** Element-wise operations on rectangular tensors *)

Section ElementwiseFacts.
Context {A : Type} {EA : Elt A}.
Implicit Types X Y : tensor4 A.

Lemma zip4_table (op : A -> A -> A) (d : A) N C H W X Y :
  has_shape N C H W X -> has_shape N C H W Y ->
  zip_exact (zip_exact (zip_exact (zip_exact (fun x y => Ok (op x y))))) X Y =
  Ok (tab4 N C H W (fun n c h w => op (get4 d X n c h w) (get4 d Y n c h w))).
Proof.
  intros HX HY. unfold tab4, get4.
  apply zip_exact_tabulate with (d1 := []) (d2 := []);
    [apply HX | apply HY | intros n Hn].
  apply zip_exact_tabulate with (d1 := []) (d2 := []);
    [apply (has_shape_img HX Hn) | apply (has_shape_img HY Hn) | intros c Hc].
  apply zip_exact_tabulate with (d1 := []) (d2 := []);
    [apply (has_shape_channel HX Hn Hc) | apply (has_shape_channel HY Hn Hc)
    | intros h Hh].
  apply zip_exact_tabulate with (d1 := d) (d2 := d);
    [apply (has_shape_row HX Hn Hc Hh) | apply (has_shape_row HY Hn Hc Hh)
    | intros w Hw].
  reflexivity.
Qed.

Lemma sub4_table (d : A) N C H W X Y :
  has_shape N C H W X -> has_shape N C H W Y ->
  sub4 X Y =
  Ok (tab4 N C H W (fun n c h w => tsub (get4 d X n c h w) (get4 d Y n c h w))).
Proof. apply zip4_table. Qed.

Lemma map4_tab4 (g : A -> A) N C H W f :
  map4 g (tab4 N C H W f) = tab4 N C H W (fun n c h w => g (f n c h w)).
Proof. unfold map4, tab4. now rewrite !map_map; repeat (apply map_ext; intro; rewrite !map_map). Qed.

(** [tv_loss] on an image of shape [(N, C, H, W)]: the two difference
    tensors are the tables of neighbour differences. *)
Lemma tv_loss_table (d : A) N C H W X :
  has_shape N C H W X ->
  tv_loss X =
  Ok (tmul (tlit (Q2Qc (1 # 2)))
       (tadd (mean (flatten4 (tab4 N C (H - 1) W (fun n c h w =>
                tabs (tsub (get4 d X n c (S h) w) (get4 d X n c h w))))))
             (mean (flatten4 (tab4 N C H (W - 1) (fun n c h w =>
                tabs (tsub (get4 d X n c h (S w)) (get4 d X n c h w)))))))).
Proof.
  intros HS. unfold tv_loss.
  rewrite (sub4_table d (has_shape_rows_from_1 HS) (has_shape_rows_to_last HS)).
  rewrite (sub4_table d (has_shape_cols_from_1 HS) (has_shape_cols_to_last HS)).
  simpl. unfold mean4. rewrite !map4_tab4. do 3 f_equal.
  - do 2 f_equal. apply tab4_ext. intros n c h w Hn Hc Hh Hw.
    rewrite get4_rows_from_1.
    rewrite (get4_rows_to_last d (h:=h) w HS) by lia. reflexivity.
  - do 2 f_equal. apply tab4_ext. intros n c h w Hn Hc Hh Hw.
    rewrite get4_cols_from_1.
    rewrite (get4_cols_to_last d (h:=h) (w:=w) HS) by lia. reflexivity.
Qed.

End ElementwiseFacts.

(** ** Scalar arithmetic *)

Lemma Qc_of_nat_pos (n : nat) : 0 < n -> (0 < Qc_of_nat n)%Qc.
Proof.
  intros Hn. unfold Qc_of_nat, Qc_of_Z, Qclt, Q2Qc. cbn [this].
  setoid_rewrite Qred_correct. unfold Qlt, inject_Z. simpl. lia.
Qed.

Lemma is_zero_false (q : Qc) : (0 < q)%Qc -> is_zero q = false.
Proof.
  intros Hq. unfold is_zero. apply Qcgt_alt in Hq. now rewrite Hq.
Qed.

Lemma is_neg_false (q : Qc) : (0 <= q)%Qc -> is_neg q = false.
Proof.
  intros Hq. unfold is_neg. apply Qcge_alt in Hq.
  destruct (q ?= 0)%Qc; congruence.
Qed.

Lemma mean_nil : mean (@nil scalar) = NaN.
Proof. reflexivity. Qed.

Lemma sadd_NaN_r (x : scalar) : sadd x NaN = NaN.
Proof. now destruct x. Qed.

Lemma length_0_nil {B} (l : list B) : length l = 0 -> l = [].
Proof. now destruct l. Qed.

(** ** [tv_loss] on thin images *)

Lemma tv_loss_scalar (N C H W : nat) (X : tensor4 scalar) :
  has_shape N C H W X ->
  tv_loss X = Ok (smul half (sadd (mean (vertical_differences N C H W X))
                                  (mean (horizontal_differences N C H W X)))).
Proof. intros HS. rewrite (tv_loss_table NaN HS). reflexivity. Qed.

(** C9.  On an image of shape [(N, C, H, W)] with [H = 1] or [W = 1] one of
    the two difference tensors is empty, its mean is [0 / 0], and [tv_loss]
    returns NaN; whenever [tv_loss] returns a finite number, both [H] and [W]
    are at least 2. *)
Theorem tv_loss_thin_image (N C H W : nat) (X : tensor4 scalar) :
  has_shape N C H W X ->
  (H = 1 \/ W = 1 ->
   (vertical_differences N C H W X = [] \/ horizontal_differences N C H W X = []) /\
   tv_loss X = Ok NaN) /\
  (forall q, tv_loss X = Ok (Fin q) -> 2 <= H /\ 2 <= W).
Proof.
  intros HS. rewrite (tv_loss_scalar HS).
  assert (Lv : H <= 1 -> vertical_differences N C H W X = []).
  { intros HH. apply length_0_nil. unfold vertical_differences.
    rewrite flatten4_tab4_length. replace (H - 1) with 0 by lia. lia. }
  assert (Lh : W <= 1 -> horizontal_differences N C H W X = []).
  { intros HW. apply length_0_nil. unfold horizontal_differences.
    rewrite flatten4_tab4_length. replace (W - 1) with 0 by lia. lia. }
  split.
  - intros [-> | ->].
    + split; [left; apply Lv; lia|]. rewrite Lv by lia. reflexivity.
    + split; [right; apply Lh; lia|]. rewrite Lh by lia. rewrite mean_nil.
      simpl. now rewrite sadd_NaN_r.
  - intros q Hq. apply Ok_inj in Hq.
    destruct (le_lt_dec H 1) as [HH|HH].
    { rewrite Lv in Hq by assumption. discriminate Hq. }
    destruct (le_lt_dec W 1) as [HW|HW]; [|lia].
    rewrite Lh, mean_nil in Hq by assumption. simpl in Hq.
    rewrite sadd_NaN_r in Hq. discriminate Hq.
Qed.

Lemma tv_loss_thin_image_witness :
  has_shape 1 1 1 2 [[[[Fin 1%Qc; Fin 0%Qc]]]] /\
  tv_loss [[[[Fin 1%Qc; Fin 0%Qc]]]] = Ok NaN.
Proof.
  assert (HS : has_shape 1 1 1 2 [[[[Fin 1%Qc; Fin 0%Qc]]]]).
  { unfold has_shape. repeat (split || constructor). }
  split; [exact HS|].
  apply (proj1 (tv_loss_thin_image HS)). left. reflexivity.
Defined.

(** ** Sums and means of non-negative numbers *)

Ltac qc_to_q :=
  unfold Qcle, Qclt, Qcdiv, Qcmult, Qcinv, Qcplus, Qcminus, Qcopp, Q2Qc in *;
  cbn [this] in *; change (Qred 0) with 0%Q in *;
  repeat (setoid_rewrite Qred_correct).

Lemma Qc_le_add (a b : Qc) : (0 <= b)%Qc -> (a <= a + b)%Qc.
Proof. intros. qc_to_q. lra. Qed.

Lemma Qc_lt_add (a b : Qc) : (0 < b)%Qc -> (a < a + b)%Qc.
Proof. intros. qc_to_q. lra. Qed.

Lemma Qc_div_0 (b : Qc) : (0 / b)%Qc = 0%Qc.
Proof. unfold Qcdiv. apply Qcmult_0_l. Qed.

Lemma fold_sadd_nonneg (l : list scalar) (a : Qc) :
  Forall (fun x => exists q, x = Fin q /\ (0 <= q)%Qc) l ->
  exists s, fold_left sadd l (Fin a) = Fin s /\ (a <= s)%Qc /\
            (Exists (fun x => exists q, x = Fin q /\ (0 < q)%Qc) l -> (a < s)%Qc).
Proof.
  revert a; induction l as [|x l IH]; intros a Hl.
  - exists a. repeat split; [apply Qcle_refl|]. intros E; inversion E.
  - inversion Hl as [|? ? (q & -> & Hq) Hl']; subst.
    destruct (IH (a + q)%Qc Hl') as (s & Hs & Hle & Hlt).
    exists s. simpl. repeat split; [exact Hs| |].
    + eapply Qcle_trans; [apply (Qc_le_add a Hq)|exact Hle].
    + intros E. inversion E as [? ? (q' & [= ->] & Hq')|? ? E']; subst.
      * eapply Qclt_le_trans; [apply (Qc_lt_add a Hq')|exact Hle].
      * eapply Qcle_lt_trans; [apply (Qc_le_add a Hq)|auto].
Qed.

(** ** Entries of constant and of finite images *)

Section EntryFacts.
Context {A : Type}.

Lemma all4_get4 (P : A -> Prop) (d : A) N C H W (X : tensor4 A) n c h w :
  has_shape N C H W X -> all4 P X ->
  n < N -> c < C -> h < H -> w < W -> P (get4 d X n c h w).
Proof.
  intros HS HP Hn Hc Hh Hw. unfold all4, get4 in *.
  pose proof (has_shape_img HS Hn) as [L1 _].
  pose proof (has_shape_channel HS Hn Hc) as [L2 _].
  pose proof (has_shape_row HS Hn Hc Hh) as L3.
  destruct HS as [L0 _].
  assert (H1 : In (nth n X []) X) by (apply nth_In; lia).
  assert (H2 : In (nth c (nth n X []) []) (nth n X [])) by (apply nth_In; lia).
  assert (H3 : In (nth h (nth c (nth n X []) []) []) (nth c (nth n X []) []))
    by (apply nth_In; lia).
  rewrite Forall_forall in HP. apply HP in H1.
  rewrite Forall_forall in H1. apply H1 in H2.
  rewrite Forall_forall in H2. apply H2 in H3.
  rewrite Forall_forall in H3. apply H3, nth_In. lia.
Qed.


End EntryFacts.

(** ** binary32: signs of rounded results *)

Lemma shr_1_nonneg (r : shr_record) : (0 <= shr_m r)%Z -> (0 <= shr_m (shr_1 r))%Z.
Proof.
  destruct r as [m rr ss]. simpl. destruct m as [|[p|p|]|p]; simpl; lia.
Qed.

Lemma iter_pos_invariant {B} (P : B -> Prop) (f : B -> B) :
  (forall x, P x -> P (f x)) -> forall n x, P x -> P (iter_pos f n x).
Proof. intros Hf. induction n; intros x Hx; simpl; auto. Qed.

Lemma shr_fexp_nonneg (p em m e : Z) (l : location) :
  (0 <= m)%Z -> (0 <= shr_m (fst (shr_fexp p em m e l)))%Z.
Proof.
  intros Hm. unfold shr_fexp, shr.
  assert (H0 : (0 <= shr_m (shr_record_of_loc m l))%Z) by (destruct l as [|[]]; exact Hm).
  destruct (_ - e)%Z; cbn [fst]; try exact H0.
  apply (iter_pos_invariant (fun r => (0 <= shr_m r)%Z)); [apply shr_1_nonneg|exact H0].
Qed.

Lemma round_nearest_even_nonneg (m : Z) (l : location) :
  (0 <= m)%Z -> (0 <= round_nearest_even m l)%Z.
Proof.
  intros Hm. destruct l as [|[]]; simpl; try lia. destruct (Z.even m); lia.
Qed.

Lemma binary_round_aux_sign (p em : Z) (s : bool) (mx ex : Z) (lx : location) :
  (0 <= mx)%Z -> has_sign s (binary_round_aux p em s mx ex lx).
Proof.
  intros Hm. unfold binary_round_aux.
  pose proof (shr_fexp_nonneg p em ex lx Hm) as H1.
  destruct (shr_fexp p em mx ex lx) as [mrs' e']. cbn [fst] in H1.
  pose proof (shr_fexp_nonneg p em e' loc_Exact
                (round_nearest_even_nonneg (loc_of_shr_record mrs') H1)) as H2.
  destruct (shr_fexp p em _ e' loc_Exact) as [mrs'' e'']. cbn [fst] in H2.
  destruct (shr_m mrs'') as [|m|m]; [reflexivity| |lia].
  destruct (_ <=? _)%Z; reflexivity.
Qed.

Lemma binary_round_sign (p em : Z) (s : bool) (m : positive) (e : Z) :
  has_sign s (binary_round p em s m e).
Proof.
  unfold binary_round. destruct (shl_align _ _ _) as [mz ez].
  apply binary_round_aux_sign. lia.
Qed.

Lemma has_sign_nonneg (r : float32) : has_sign false r -> f32_nonneg r.
Proof. destruct r as [s|s| |s m e]; simpl; intros E; subst; auto. Qed.

Lemma has_sign_number (s : bool) (r : float32) : has_sign s r -> r <> S754_nan.
Proof. destruct r; simpl; intros E; [discriminate..|contradiction|discriminate]. Qed.

Lemma f32_add_nonneg (x y : float32) :
  f32_nonneg x -> f32_nonneg y -> f32_nonneg (SFadd prec32 emax32 x y).
Proof.
  destruct x as [sx|[]| |[] mx ex], y as [sy|[]| |[] my ey]; simpl;
    try contradiction; try (intros; exact I).
  - destruct sx, sy; intros; exact I.
  - intros _ _. apply has_sign_nonneg, binary_round_sign.
Qed.

Lemma f32_sum_nonneg (l : list float32) (a : float32) :
  Forall f32_nonneg l -> f32_nonneg a ->
  f32_nonneg (fold_left (SFadd prec32 emax32) l a).
Proof.
  revert a; induction l as [|x l IH]; intros a Hl Ha; simpl; [exact Ha|].
  inversion Hl; subst. apply IH; [assumption|]. now apply f32_add_nonneg.
Qed.

Lemma f32_div_nonneg (x : float32) (my : positive) (ey : Z) :
  f32_nonneg x -> f32_nonneg (SFdiv prec32 emax32 x (S754_finite false my ey)).
Proof.
  destruct x as [sx|[]| |[] mx ex]; simpl; try contradiction; try (intros; exact I).
  intros _. unfold SFdiv_core_binary.
  set (m' := match _ with Zpos _ => _ | Z0 => _ | Zneg _ => _ end).
  assert (Hm' : (0 <= m')%Z).
  { unfold m'. destruct (_ - _ - _)%Z; try lia. apply Z.shiftl_nonneg. lia. }
  destruct (Z.div_eucl m' (Zpos my)) as [q r] eqn:E.
  apply has_sign_nonneg, binary_round_aux_sign.
  replace q with (m' / Zpos my)%Z by (unfold Z.div; now rewrite E).
  apply Z.div_pos; lia.
Qed.


Lemma f32_square_nonneg (x : float32) :
  x <> S754_nan -> f32_nonneg (SFmul prec32 emax32 x x).
Proof.
  destruct x as [s|s| |s m e]; simpl; intros Hx; try congruence.
  - exact I.
  - now rewrite xorb_nilpotent.
  - rewrite xorb_nilpotent. apply has_sign_nonneg, binary_round_aux_sign. lia.
Qed.

Lemma f32_sub_number (x y : float32) :
  f32_finite x -> f32_finite y -> SFsub prec32 emax32 x y <> S754_nan.
Proof.
  destruct x as [sx|sx| |sx mx ex], y as [sy|sy| |sy my ey]; simpl;
    try contradiction; intros _ _; try discriminate.
  - destruct sx, sy; discriminate.
  - set (z := (_ - _)%Z). destruct z; simpl; try discriminate.
    + apply (@has_sign_number false), binary_round_sign.
    + apply (@has_sign_number true), binary_round_sign.
Qed.


Lemma f32_sub_diag (x : float32) :
  f32_finite x -> SFsub prec32 emax32 x x = S754_zero false.
Proof.
  destruct x as [s|s| |s m e]; simpl; try contradiction; intros _.
  - now destruct s.
  - now rewrite Z.sub_diag.
Qed.

(** ** binary32: small counts are exact *)

(** ** binary32: small counts are exact *)

Lemma digits2_pos_size (p : positive) : digits2_pos p = Pos.size p.
Proof. induction p; simpl; congruence. Qed.

Lemma digits2_pos_small (p : positive) :
  (Zpos p < 2 ^ 24)%Z -> (Zpos (digits2_pos p) <= 24)%Z.
Proof.
  intros Hp. rewrite digits2_pos_size.
  destruct (Z.le_gt_cases (Zpos (Pos.size p)) 24) as [H|H]; [exact H|exfalso].
  pose proof (Pos.size_le p) as Hs.
  assert (H25 : (2 ^ 25 <= 2 ^ Zpos (Pos.size p))%Z) by (apply Z.pow_le_mono_r; lia).
  assert (Hs' : (2 ^ Zpos (Pos.size p) <= Zpos p~0)%Z).
  { rewrite <- Pos2Z.inj_pow. apply Pos2Z.pos_le_pos. exact Hs. }
  change (2 ^ 25)%Z with (2 * 2 ^ 24)%Z in H25. lia.
Qed.

Lemma digits2_pos_iter_xO (p k : positive) :
  digits2_pos (Pos.iter xO p k) = (digits2_pos p + k)%positive.
Proof.
  revert p. induction k using Pos.peano_ind; intros p.
  - simpl. lia.
  - rewrite Pos.iter_succ. simpl. rewrite IHk. lia.
Qed.

Lemma binary_round_aux_canonical (s : bool) (m : positive) (e : Z) :
  fexp prec32 emax32 (Zpos (digits2_pos m) + e) = e -> (e <= emax32 - prec32)%Z ->
  binary_round_aux prec32 emax32 s (Zpos m) e loc_Exact = S754_finite s m e.
Proof.
  intros Hc He. unfold binary_round_aux, shr_fexp. cbn [Zdigits2 shr_record_of_loc].
  rewrite Hc, Z.sub_diag. cbn [shr loc_of_shr_record shr_m round_nearest_even Zdigits2
                               shr_record_of_loc].
  rewrite Hc, Z.sub_diag. cbn [shr shr_m].
  apply Z.leb_le in He. now rewrite He.
Qed.

Lemma f32_of_Z_small (p : positive) :
  (Zpos p < 2 ^ 24)%Z -> exists m e, f32_of_Z (Zpos p) = S754_finite false m e.
Proof.
  intros Hp. apply digits2_pos_small in Hp.
  unfold f32_of_Z, binary_normalize, binary_round.
  set (d := digits2_pos p) in *.
  assert (Hf : fexp prec32 emax32 (Zpos d + 0) = (Zpos d - 24)%Z).
  { unfold fexp, emin, prec32, emax32. lia. }
  rewrite Hf. unfold shl_align.
  destruct (Zpos d - 24 - 0)%Z as [|k|k] eqn:Ek; try lia.
  - exists p, 0%Z. apply binary_round_aux_canonical; [|unfold emax32, prec32; lia].
    fold d. rewrite Hf. lia.
  - eexists _, _. apply binary_round_aux_canonical; [|unfold emax32, prec32; lia].
    rewrite digits2_pos_iter_xO. fold d.
    unfold fexp, emin, prec32, emax32. lia.
Qed.

Lemma Qc_of_nat_this (n : nat) : this (Qc_of_nat n) = (Z.of_nat n # 1)%Q.
Proof.
  unfold Qc_of_nat, Qc_of_Z, Q2Qc. cbn [this]. apply Qred_identity.
  simpl. apply Z.gcd_1_r.
Qed.

Lemma f32_lit_count (n : nat) :
  1 <= n -> (Z.of_nat n < 2 ^ 24)%Z ->
  exists m e, f32_lit (Qc_of_nat n) = S754_finite false m e.
Proof.
  intros H1 H2. unfold f32_lit. rewrite Qc_of_nat_this. cbn [Qden Qnum].
  rewrite Z.eqb_refl. destruct (Z.of_nat n) as [|p|p] eqn:E; try lia.
  apply f32_of_Z_small. exact H2.
Qed.

(** ** binary32: means of numbers that are not negative *)

Lemma f32_mean_nonneg (l : list float32) :
  l <> [] -> (Z.of_nat (length l) < 2 ^ 24)%Z -> Forall f32_nonneg l ->
  f32_nonneg (mean l).
Proof.
  intros Hne Hlen Hl. unfold mean, tsum. cbn [tdiv tadd tlit Elt_float32].
  destruct (@f32_lit_count (length l)) as (m & e & ->);
    [destruct l; [congruence|simpl; lia]|exact Hlen|].
  apply f32_div_nonneg, f32_sum_nonneg; [exact Hl|exact I].
Qed.

Lemma f32_mean_zeros (l : list float32) :
  l <> [] -> (Z.of_nat (length l) < 2 ^ 24)%Z ->
  Forall (fun x => x = S754_zero false) l -> mean l = S754_zero false.
Proof.
  intros Hne Hlen Hl. unfold mean, tsum. cbn [tdiv tadd tlit Elt_float32].
  destruct (@f32_lit_count (length l)) as (m & e & ->);
    [destruct l; [congruence|simpl; lia]|exact Hlen|].
  assert (Hs : forall a, a = S754_zero false ->
                fold_left (SFadd prec32 emax32) l a = S754_zero false).
  { clear Hne Hlen. induction l as [|x l IH]; intros a ->; [reflexivity|].
    inversion Hl; subst. simpl. auto. }
  rewrite Hs; reflexivity.
Qed.

(** ** Total variation of a proper image *)








(** ** The Gram statistic *)

Lemma chunks_of_concat {B} (ls : list (list B)) (n : nat) :
  Forall (fun l => length l = n) ls ->
  map (fun i => firstn n (skipn (i * n) (concat ls))) (seq 0 (length ls)) = ls.
Proof.
  induction ls as [|l ls IH]; intros Hls; [reflexivity|].
  inversion Hls as [|? ? Hl Hls']; subst. simpl length. simpl seq.
  rewrite map_cons, map_seq_S. f_equal.
  - simpl. rewrite firstn_app, Nat.sub_diag, firstn_all. simpl. apply app_nil_r.
  - rewrite <- (IH Hls') at 2. apply map_ext. intros i. simpl concat.
    rewrite skipn_app. rewrite skipn_all2 by (simpl; lia). simpl.
    do 2 f_equal. lia.
Qed.

Lemma length_concat_uniform {B} (ls : list (list B)) (n : nat) :
  Forall (fun l => length l = n) ls -> length (concat ls) = length ls * n.
Proof.
  induction 1 as [|l ls Hl _ IH]; [reflexivity|].
  simpl. rewrite length_app, IH, Hl. reflexivity.
Qed.

Section GramFacts.
Context {A : Type} {EA : Elt A}.

Lemma channel_rows_shape C H W (X : tensor4 A) :
  has_shape 1 C H W X ->
  length (channel_rows X) = C /\
  Forall (fun r => length r = H * W) (channel_rows X) /\
  flatten4 X = concat (channel_rows X).
Proof.
  intros [HN HX]. destruct X as [|img [|? ?]]; try discriminate.
  inversion HX as [|? ? [HC Himg] _]; subst. unfold channel_rows, flatten4. simpl.
  rewrite length_map, app_nil_r. repeat split.
  apply Forall_map. eapply Forall_impl; [|exact Himg].
  intros ch [HH Hch]. simpl. rewrite (length_concat_uniform Hch). now rewrite HH.
Qed.

Lemma entry_tabulate r c (f : nat -> nat -> A) i j :
  i < r -> j < c -> entry (tabulate r c f) i j = f i j.
Proof.
  intros Hi Hj. unfold entry, tabulate. simpl.
  now rewrite !nth_map_seq by assumption.
Qed.

(** With at least one channel, [gram] returns what the specification says. *)
Lemma gram_is_gram_spec C H W (X : tensor4 A) :
  has_shape 1 C H W X -> 1 <= C -> gram X = Ok (gram_spec H W X).
Proof.
  intros HS HC. destruct (channel_rows_shape HS) as (LR & FR & EF).
  assert (S1 : shape1 X = C).
  { unfold shape1. unfold channel_rows in LR. now rewrite length_map in LR. }
  assert (NE : numel4 X = (H * W) * C).
  { unfold numel4. rewrite EF, (length_concat_uniform FR), LR. lia. }
  unfold gram. rewrite S1, NE. unfold py_floordiv.
  destruct (Nat.eqb_spec C 0) as [|_]; [lia|].
  rewrite Nat.div_mul by lia. simpl.
  unfold reshape. rewrite EF, (length_concat_uniform FR), LR.
  rewrite (proj2 (Nat.eqb_eq _ _)) by lia.
  replace (seq 0 C) with (seq 0 (length (channel_rows X))) by now rewrite LR.
  rewrite (chunks_of_concat FR). simpl.
  unfold matmul. simpl. rewrite Nat.eqb_refl. simpl.
  unfold gram_spec, mmap, tabulate. simpl. rewrite LR. do 2 f_equal.
  rewrite map_map. apply map_ext_in. intros i Hi. apply in_seq in Hi.
  rewrite map_map. apply map_ext_in. intros j Hj. apply in_seq in Hj.
  f_equal. unfold dot. simpl. f_equal.
  apply map_ext_in. intros k Hk. apply in_seq in Hk.
  f_equal.
  unfold transpose. rewrite entry_tabulate by (simpl; lia). reflexivity.
Qed.

End GramFacts.

Lemma smul_comm (x y : scalar) : smul x y = smul y x.
Proof.
  destruct x as [a|s|], y as [b|t|]; simpl; try reflexivity.
  - f_equal. apply Qcmult_comm.
  - f_equal. apply xorb_comm.
Qed.

Lemma tabulate_ext {A} (r c : nat) (f g : nat -> nat -> A) :
  (forall i j, i < r -> j < c -> f i j = g i j) -> tabulate r c f = tabulate r c g.
Proof.
  intros E. unfold tabulate. f_equal.
  apply map_ext_in; intros i Hi; apply in_seq in Hi.
  apply map_ext_in; intros j Hj; apply in_seq in Hj.
  apply E; lia.
Qed.

Lemma is_matrix_tabulate {A} (r c : nat) (f : nat -> nat -> A) :
  is_matrix r c (tabulate r c f).
Proof.
  unfold is_matrix, tabulate. simpl. repeat split.
  - now rewrite length_map, length_seq.
  - apply Forall_map, Forall_forall. intros i _. now rewrite length_map, length_seq.
Qed.

Lemma transpose_gram_spec (H W : nat) (X : tensor4 scalar) :
  transpose (gram_spec H W X) = gram_spec H W X.
Proof.
  unfold gram_spec, transpose. simpl. apply tabulate_ext. intros i j Hi Hj.
  rewrite entry_tabulate by assumption. do 2 f_equal.
  apply map_ext. intros k. apply smul_comm.
Qed.

(** C2, as the code has it.  On an activation tensor of shape
    [(1, C, H, W)] with at least one channel, [gram] returns the [(C, C)]
    matrix that is the [(C, H*W)] reshape times its own transpose, divided by
    [H*W]; that matrix equals its transpose. *)
Theorem gram_correct (C H W : nat) (X : tensor4 scalar) :
  has_shape 1 C H W X -> 1 <= C ->
  exists G, gram X = Ok G /\
            G = gram_spec H W X /\
            is_matrix C C G /\
            transpose G = G.
Proof.
  intros HS HC. exists (gram_spec H W X). split; [|split; [|split]].
  - apply (gram_is_gram_spec HS HC).
  - reflexivity.
  - destruct (channel_rows_shape HS) as (LR & _ & _).
    unfold gram_spec. simpl. rewrite LR. apply is_matrix_tabulate.
  - apply transpose_gram_spec.
Qed.

Lemma gram_correct_witness :
  let X := [[[[Fin 1%Qc; Fin 0%Qc]]; [[Fin 0%Qc; Fin 1%Qc]]]] in
  has_shape 1 2 1 2 X /\
  exists G, gram X = Ok G /\ is_matrix 2 2 G /\ transpose G = G.
Proof.
  intros X.
  assert (HS : has_shape 1 2 1 2 X) by (unfold has_shape; repeat (split || constructor)).
  split; [exact HS|].
  destruct (gram_correct HS) as (G & HG & _ & HM & HT); [lia|].
  exists G. auto.
Defined.

(** C2 as stated fails on a tensor without channels: [X.numel() // X.shape[1]]
    divides by zero. *)
Lemma gram_no_channel_counterexample :
  has_shape 1 0 2 2 ([[]] : tensor4 scalar) /\
  gram ([[]] : tensor4 scalar) = Raise ZeroDivisionError.
Proof.
  split; [|reflexivity].
  unfold has_shape. repeat (split || constructor).
Qed.

(** ** [compute_loss] *)

Lemma mapM_then_map {B1 B2 B3} (f : B1 -> pyresult B2) (g : B2 -> B3) (l : list B1) :
  mapM (fun a => b <- f a ;; Ok (g b)) l = (bs <- mapM f l ;; Ok (map g bs)).
Proof.
  induction l as [|a l IH]; [reflexivity|]. simpl.
  destruct (f a) as [b|e]; [|reflexivity]. simpl. rewrite IH.
  destruct (mapM f l); reflexivity.
Qed.

Lemma mapM_length {B1 B2} (f : B1 -> pyresult B2) (l : list B1) (bs : list B2) :
  mapM f l = Ok bs -> length bs = length l.
Proof.
  revert bs; induction l as [|a l IH]; intros bs E; simpl in E.
  - apply Ok_inj in E. now subst.
  - destruct (f a); [|discriminate]. simpl in E.
    destruct (mapM f l) eqn:E'; [|discriminate]. simpl in E.
    apply Ok_inj in E. subst. simpl. f_equal. now apply IH.
Qed.

Section SumFacts.
Context {A : Type} {EA : Elt A}.

Lemma fold_py_add_tensor (l : list A) (x : A) :
  fold_left py_add (map PyTensor l) (PyTensor x) = PyTensor (fold_left tadd l x).
Proof.
  revert x; induction l as [|y l IH]; intros x; [reflexivity|].
  simpl. apply IH.
Qed.

(** The builtin [sum] of a list of tensors is the int [0] on the empty
    list and a tensor otherwise. *)
Lemma py_sum_cases (l : list A) :
  py_sum l = match l with [] => PyInt 0 | _ :: _ => PyTensor (tsum l) end.
Proof.
  destruct l as [|x l]; [reflexivity|].
  unfold py_sum, tsum. simpl. apply fold_py_add_tensor.
Qed.

End SumFacts.

Lemma sadd_0_l (x : scalar) : sadd (Fin 0%Qc) x = x.
Proof. destruct x; simpl; try reflexivity. now rewrite Qcplus_0_l. Qed.

(** Multiplying by a positive constant distributes over sums, also on the
    special values. *)
Lemma smul_pos_sadd (w : Qc) (x y : scalar) :
  (0 < w)%Qc ->
  smul (sadd x y) (Fin w) = sadd (smul x (Fin w)) (smul y (Fin w)).
Proof.
  intros Hw. pose proof (is_zero_false Hw) as Z.
  pose proof (is_neg_false (Qclt_le_weak _ _ Hw)) as Ng.
  destruct x as [a|s|], y as [b|t|]; simpl; rewrite ?Z, ?Ng; simpl;
    rewrite ?xorb_false_r; try reflexivity.
  - f_equal. ring.
  - destruct (Bool.eqb s t); simpl; rewrite ?Z, ?Ng, ?xorb_false_r; reflexivity.
Qed.

Lemma tsum_weighted (w : Qc) (l : list scalar) :
  (0 < w)%Qc ->
  tsum (map (fun x => smul x (Fin w)) l) = smul (Fin w) (tsum l).
Proof.
  intros Hw. unfold tsum.
  change (@tadd scalar _) with sadd. change (@tlit scalar _ 0%Qc) with (Fin 0%Qc).
  assert (G : forall a, fold_left sadd (map (fun x => smul x (Fin w)) l) (smul a (Fin w))
                        = smul (fold_left sadd l a) (Fin w)).
  { induction l as [|x l IH]; intros a; [reflexivity|].
    simpl. rewrite <- (smul_pos_sadd a x Hw). apply IH. }
  rewrite smul_comm, <- G. f_equal. simpl. now rewrite Qcmult_0_l.
Qed.

Lemma Qc_of_Z_pos (z : Z) : (0 < z)%Z -> (0 < Qc_of_Z z)%Qc.
Proof.
  intros Hz. replace z with (Z.of_nat (Z.to_nat z)) by lia.
  apply (Qc_of_nat_pos (n := Z.to_nat z)). lia.
Qed.

Section ComputeLossFacts.
Context {A : Type} {EA : Elt A}.

(** Once the per-layer losses are known, [compute_loss] only weighs and
    adds them. *)
Lemma Gatys_compute_loss_unfold (X : tensor4 A) ch sh cY sg cl sl tv :
  content_losses ch cY = Ok cl -> style_losses sh sg = Ok sl -> tv_loss X = Ok tv ->
  Gatys.compute_loss X ch sh cY sg =
  (let contents_l := map (Gatys.weighted Gatys.CONTENT_WEIGHT) cl in
   let styles_l := map (Gatys.weighted Gatys.STYLE_WEIGHT) sl in
   let tv_l := Gatys.weighted Gatys.TV_WEIGHT tv in
   s <- Gatys.style_term styles_l ;;
   Ok (contents_l, styles_l, tv_l,
       py_add (py_add s (py_sum contents_l)) (PyTensor tv_l))).
Proof.
  intros Hc Hs Ht. unfold Gatys.compute_loss.
  rewrite !mapM_then_map. fold (content_losses ch cY) (style_losses sh sg).
  rewrite Hc, Hs, Ht. reflexivity.
Qed.

Lemma Main_compute_loss_unfold (X : tensor4 A) ch sh cY sg cl sl tv :
  content_losses ch cY = Ok cl -> style_losses sh sg = Ok sl -> tv_loss X = Ok tv ->
  Main.compute_loss X ch sh cY sg =
  (let contents_l := map (Main.weighted Main.content_weight) cl in
   let styles_l := map (Main.weighted Main.style_weight) sl in
   let tv_l := Main.weighted Main.tv_weight tv in
   s <- Main.style_term styles_l ;;
   Ok (contents_l, styles_l, tv_l,
       py_add (py_add s (py_sum contents_l)) (py_sum [tv_l]))).
Proof.
  intros Hc Hs Ht. unfold Main.compute_loss.
  rewrite !mapM_then_map. fold (content_losses ch cY) (style_losses sh sg).
  rewrite Hc, Hs, Ht. reflexivity.
Qed.

End ComputeLossFacts.

Lemma weighted_sum (w : Z) (l : list scalar) :
  (0 < w)%Z ->
  tsum (map (fun x => smul x (Fin (Qc_of_Z w))) l) = smul (Fin (Qc_of_Z w)) (tsum l).
Proof. intros Hw. apply tsum_weighted, Qc_of_Z_pos, Hw. Qed.




(** ** No style layers *)

Lemma Gatys_compute_loss_needs_styles {A} {EA : Elt A} (X : tensor4 A) ch sh cY sg r :
  Gatys.compute_loss X ch sh cY sg = Ok r -> combine sh sg <> [].
Proof.
  unfold Gatys.compute_loss. intros E Hnil. rewrite Hnil in E.
  destruct (mapM _ (combine ch cY)); simpl in E; [|discriminate].
  destruct (tv_loss X); simpl in E; discriminate.
Qed.

Lemma py_sum_single (x : scalar) : py_sum [x] = PyTensor x.
Proof. rewrite py_sum_cases. unfold tsum. simpl. f_equal. apply sadd_0_l. Qed.

Lemma py_add_float_sum (a t : scalar) (l : list scalar) :
  py_add (py_add (PyFloat a) (py_sum l)) (PyTensor t) =
  PyTensor (sadd (sadd a (tsum l)) t).
Proof. rewrite py_sum_cases. destruct l; reflexivity. Qed.

(** C10.  With the empty list of style activations, and content losses and
    a tv loss that evaluate, [compute_loss] of Gatys.py raises
    [ZeroDivisionError], while [compute_loss] of main.py returns a total
    whose style term is 0; and whenever [compute_loss] of Gatys.py returns,
    the list of style activations (and that of style references) is not
    empty. *)
Theorem compute_loss_empty_styles :
  (forall (X : tensor4 scalar) ch cY sg cl tv,
     content_losses ch cY = Ok cl -> tv_loss X = Ok tv ->
     Gatys.compute_loss X ch [] cY sg = Raise ZeroDivisionError /\
     Main.style_term (@nil scalar) = Ok (PyFloat (Fin 0%Qc)) /\
     Main.compute_loss X ch [] cY sg =
     Ok (map (fun x => smul x (Fin (Qc_of_Z 8))) cl, [], smul tv (Fin (Qc_of_Z 0)),
         PyTensor (sadd (sadd (Fin 0%Qc) (smul (Fin (Qc_of_Z 8)) (tsum cl)))
                        (smul (Fin (Qc_of_Z 0)) tv)))) /\
  (forall (X : tensor4 scalar) ch sh cY sg r,
     Gatys.compute_loss X ch sh cY sg = Ok r -> sh <> [] /\ sg <> []).
Proof.
  split.
  - intros X ch cY sg cl tv Hc Ht.
    assert (Hs : style_losses [] sg = Ok (@nil scalar)) by reflexivity.
    assert (Z5 : Main.style_term (@nil scalar) = Ok (PyFloat (Fin 0%Qc))).
    { unfold Main.style_term, py_sum, py_truediv. simpl. do 3 f_equal.
      apply Qc_div_0. }
    split; [|split].
    + rewrite (Gatys_compute_loss_unfold X ch [] cY sg Hc Hs Ht). reflexivity.
    + exact Z5.
    + rewrite (Main_compute_loss_unfold X ch [] cY sg Hc Hs Ht). cbv zeta.
      cbn [map]. rewrite Z5. unfold bind.
      unfold Main.weighted, Main.content_weight, Main.tv_weight.
      change (@tmul scalar _) with smul. change (@tlit scalar _) with Fin.
      rewrite py_sum_single, py_add_float_sum.
      rewrite (weighted_sum cl (w := 8)) by lia.
      rewrite (smul_comm (Fin (Qc_of_Z 0)) tv). reflexivity.
  - intros X ch sh cY sg r E.
    apply Gatys_compute_loss_needs_styles in E.
    split; intros ->; apply E; [reflexivity|apply combine_nil].
Qed.

Lemma compute_loss_empty_styles_witness :
  let X := [[[[Fin 1%Qc; Fin 0%Qc]; [Fin 0%Qc; Fin 1%Qc]]]] in
  exists cl tv,
    content_losses [X] [X] = Ok cl /\ tv_loss X = Ok tv /\
    Gatys.compute_loss X [X] [] [X] [] = Raise ZeroDivisionError.
Proof.
  intros X.
  destruct (content_losses [X] [X]) as [cl|] eqn:Ec; [|discriminate Ec].
  destruct (tv_loss X) as [tv|] eqn:Et; [|discriminate Et].
  exists cl, tv. split; [reflexivity|]. split; [reflexivity|].
  apply (proj1 compute_loss_empty_styles X [X] [X] [] cl tv Ec Et).
Defined.

(** ** The two normalisations of the style sum *)

Lemma Qc_of_nat_inj (n m : nat) : Qc_of_nat n = Qc_of_nat m -> n = m.
Proof.
  unfold Qc_of_nat, Qc_of_Z. intros E. apply Q2Qc_eq_iff in E.
  unfold Qeq, inject_Z in E. simpl in E. lia.
Qed.

Lemma Qcinv_inj (a b : Qc) : (/ a = / b)%Qc -> a = b.
Proof.
  intros E. apply Qc_is_canon.
  rewrite <- (Qinv_involutive a), <- (Qinv_involutive b).
  apply (f_equal this) in E. unfold Qcinv, Q2Qc in E. cbn [this] in E.
  assert (E' : (/ a == / b)%Q).
  { rewrite <- (Qred_correct (/ a)), <- (Qred_correct (/ b)), E. reflexivity. }
  now rewrite E'.
Qed.

Lemma Qcdiv_cancel (s a b : Qc) : s <> 0%Qc -> (s / a = s / b)%Qc -> a = b.
Proof.
  intros Hs E. apply Qcinv_inj.
  apply (f_equal (fun x => (/ s * x)%Qc)) in E. unfold Qcdiv in E.
  rewrite !Qcmult_assoc, (Qcmult_inv_l _ Hs), !Qcmult_1_l in E. exact E.
Qed.

Lemma Qc_mul_pos (a b : Qc) : (0 < a)%Qc -> (0 < b)%Qc -> (0 < a * b)%Qc.
Proof. intros. qc_to_q. now apply Qmult_lt_0_compat. Qed.

Lemma Fin_inj (a b : Qc) : Fin a = Fin b -> a = b.
Proof. congruence. Qed.

Lemma PyTensor_inj {B} (a b : B) : PyTensor a = PyTensor b -> a = b.
Proof. congruence. Qed.

Lemma style_losses_repeat (Y : tensor4 scalar) (G : matrix scalar) (v : scalar) (n : nat) :
  style_loss Y G = Ok v ->
  style_losses (repeat Y n) (repeat G n) = Ok (repeat v n).
Proof.
  intros E. unfold style_losses. induction n as [|n IH]; [reflexivity|].
  simpl. rewrite E. simpl. rewrite IH. reflexivity.
Qed.

(** C4.  On style lists of length 5 the style term of Gatys.py
    ([sum(styles_l) / len(styles_l)]) and that of main.py
    ([sum(styles_l) / 5]) are the same; for every other length there are
    style lists of that length on which they differ. *)
Theorem style_terms_agree_exactly_at_five :
  (forall (styles_Y_hat : list (tensor4 scalar)) (styles_Y_gram : list (matrix scalar)) sl,
     length styles_Y_hat = 5 -> length styles_Y_gram = 5 ->
     style_losses styles_Y_hat styles_Y_gram = Ok sl ->
     Gatys.style_term (map (Gatys.weighted Gatys.STYLE_WEIGHT) sl) =
     Main.style_term (map (Main.weighted Main.style_weight) sl)) /\
  (forall n, n <> 5 ->
     exists (styles_Y_hat : list (tensor4 scalar)) (styles_Y_gram : list (matrix scalar)) sl,
       length styles_Y_hat = n /\ length styles_Y_gram = n /\
       style_losses styles_Y_hat styles_Y_gram = Ok sl /\
       Gatys.style_term (map (Gatys.weighted Gatys.STYLE_WEIGHT) sl) <>
       Main.style_term (map (Main.weighted Main.style_weight) sl)).
Proof.
  split.
  - intros sh sg sl Hh Hg E. apply mapM_length in E.
    rewrite length_combine, Hh, Hg in E. simpl in E.
    unfold Gatys.style_term, Main.style_term, py_len.
    rewrite length_map, E. reflexivity.
  - intros n Hn.
    set (Y := [[[[Fin 1%Qc]]]] : tensor4 scalar).
    set (G := Matrix 1 1 [[Fin 0%Qc]]).
    assert (V : exists q, style_loss Y G = Ok (Fin q) /\ (0 < q)%Qc).
    { eexists. split; [vm_compute; reflexivity|reflexivity]. }
    destruct V as (q & Hq & Hpos).
    exists (repeat Y n), (repeat G n), (repeat (Fin q) n).
    rewrite !repeat_length. repeat split.
    { apply style_losses_repeat, Hq. }
    destruct n as [|n]; [discriminate|].
    change (Main.weighted Main.style_weight)
      with (@Gatys.weighted scalar _ Gatys.STYLE_WEIGHT).
    unfold Gatys.style_term, Main.style_term, py_len.
    rewrite !py_sum_cases, length_map, repeat_length.
    cbn [repeat map]. unfold py_truediv.
    set (l := Gatys.weighted Gatys.STYLE_WEIGHT (Fin q)
              :: map (Gatys.weighted Gatys.STYLE_WEIGHT) (repeat (Fin q) n)).
    assert (Hw : (0 < q * Qc_of_Z 5000)%Qc).
    { apply Qc_mul_pos; [exact Hpos|apply Qc_of_Z_pos; lia]. }
    destruct (@fold_sadd_nonneg l 0%Qc) as (s & Hs & _ & Hlt).
    { subst l. constructor.
      - eexists; split; [reflexivity|apply Qclt_le_weak, Hw].
      - apply Forall_map, Forall_forall. intros x Hx. apply repeat_spec in Hx.
        subst x. eexists; split; [reflexivity|apply Qclt_le_weak, Hw]. }
    assert (Hs0 : (0 < s)%Qc).
    { apply Hlt. subst l. constructor. eexists; split; [reflexivity|exact Hw]. }
    change (tsum l) with (fold_left sadd l (Fin 0%Qc)). rewrite Hs.
    change (@tdiv scalar _) with sdiv. change (@tlit scalar _) with Fin.
    assert (D : forall m, 0 < m ->
              sdiv (Fin s) (Fin (Qc_of_nat m)) = Fin (s / Qc_of_nat m)%Qc).
    { intros m Hm. unfold sdiv. now rewrite (is_zero_false (Qc_of_nat_pos Hm)). }
    change (Qc_of_Z (Z.of_nat (S n))) with (Qc_of_nat (S n)).
    change (Qc_of_Z 5) with (Qc_of_nat 5).
    rewrite !D by lia.
    intros E. apply Ok_inj, PyTensor_inj, Fin_inj in E.
    apply Qcdiv_cancel in E; [|apply not_eq_sym, Qclt_not_eq, Hs0].
    apply Qc_of_nat_inj in E. lia.
Qed.

Lemma style_terms_agree_exactly_at_five_witness :
  let Y := [[[[Fin 1%Qc]]]] in
  let G := Matrix 1 1 [[Fin 0%Qc]] in
  exists sl, style_losses (repeat Y 5) (repeat G 5) = Ok sl /\
             Gatys.style_term (map (Gatys.weighted Gatys.STYLE_WEIGHT) sl) =
             Main.style_term (map (Main.weighted Main.style_weight) sl).
Proof.
  intros Y G.
  destruct (style_losses (repeat Y 5) (repeat G 5)) as [sl|] eqn:E; [|discriminate E].
  exists sl. split; [reflexivity|].
  apply (proj1 style_terms_agree_exactly_at_five (repeat Y 5) (repeat G 5) sl
               eq_refl eq_refl E).
Defined.

(** ** The truncated network *)

Lemma fold_max_ge_init (l : list Z) (x : Z) : (x <= fold_left Z.max l x)%Z.
Proof.
  revert x; induction l as [|y l IH]; intros x; simpl; [lia|].
  etransitivity; [|apply IH]. lia.
Qed.

Lemma fold_max_ge (l : list Z) (x d : Z) :
  In d (x :: l) -> (d <= fold_left Z.max l x)%Z.
Proof.
  revert x; induction l as [|y l IH]; intros x Hd; simpl in *.
  - destruct Hd as [->|[]]. lia.
  - destruct Hd as [->|[->|Hd]].
    + etransitivity; [|apply fold_max_ge_init]. lia.
    + etransitivity; [|apply fold_max_ge_init]. lia.
    + apply IH. now right.
Qed.

Lemma mapM_raise_at {B1 B2} (f : B1 -> pyresult B2) (l1 l2 : list B1) (x : B1) (e : exn) :
  (forall a, In a l1 -> exists b, f a = Ok b) -> f x = Raise e ->
  mapM f (l1 ++ x :: l2) = Raise e.
Proof.
  intros Hok Hx. induction l1 as [|a l1 IH]; simpl.
  - now rewrite Hx.
  - destruct (Hok a) as [b ->]; [now left|]. simpl.
    rewrite IH; [reflexivity|]. intros a' Ha'. apply Hok. now right.
Qed.

Section NetworkFacts.
Context {A : Type} {EA : Elt A}.

Lemma sequential_getitem_in_range (features : list (layer A)) (i : nat) :
  i < length features -> exists f, sequential_getitem features (Z.of_nat i) = Ok f.
Proof.
  intros Hi. unfold sequential_getitem.
  replace ((- Z.of_nat (length features) <=? Z.of_nat i)%Z) with true
    by (symmetry; apply Z.leb_le; lia).
  replace ((Z.of_nat i <? Z.of_nat (length features))%Z) with true
    by (symmetry; apply Z.ltb_lt; lia).
  replace ((Z.of_nat i <? 0)%Z) with false by (symmetry; apply Z.ltb_ge; lia).
  simpl. rewrite Nat2Z.id.
  destruct (nth_error features i) eqn:E; [eauto|].
  apply nth_error_None in E. lia.
Qed.

Lemma sequential_getitem_past_end (features : list (layer A)) :
  sequential_getitem features (Z.of_nat (length features)) = Raise IndexError.
Proof.
  unfold sequential_getitem. rewrite Z.ltb_irrefl, andb_false_r. reflexivity.
Qed.

Lemma Incomplete_CNN_too_deep (features : list (layer A)) content_layers style_layers d :
  In d (content_layers ++ style_layers) ->
  (Z.of_nat (length features) <= d)%Z ->
  Incomplete_CNN features content_layers style_layers = Raise IndexError.
Proof.
  intros Hd Hdeep. unfold Incomplete_CNN, py_max.
  destruct (content_layers ++ style_layers) as [|x l] eqn:E; [contradiction|].
  simpl. pose proof (fold_max_ge Hd) as Hm.
  set (m := fold_left Z.max l x) in *. unfold py_range.
  set (len := length features) in *.
  replace (Z.to_nat (m + 1)) with (len + S (Z.to_nat (m + 1) - len - 1)) by lia.
  rewrite seq_app, map_app. simpl.
  apply mapM_raise_at.
  - intros a Ha. apply in_map_iff in Ha as (i & <- & Hi). apply in_seq in Hi.
    apply sequential_getitem_in_range. lia.
  - apply sequential_getitem_past_end.
Qed.

Lemma Incomplete_CNN_covers (features : list (layer A)) content_layers style_layers net d :
  Incomplete_CNN features content_layers style_layers = Ok net ->
  In d (content_layers ++ style_layers) ->
  (d < Z.of_nat (length net))%Z.
Proof.
  unfold Incomplete_CNN, py_max. intros E Hd.
  destruct (content_layers ++ style_layers) as [|x l]; [contradiction|].
  simpl in E. pose proof (fold_max_ge Hd) as Hm.
  apply mapM_length in E. unfold py_range in E.
  rewrite length_map, length_seq in E. lia.
Qed.

End NetworkFacts.

(** C7.  A requested content or style depth that is not a layer of the
    pretrained network makes the construction of the truncated network raise
    [IndexError], so that the program stops there, before the references are
    extracted and before [train]; and when the construction succeeds, every
    requested depth is a layer of the truncated network, on which
    [extract_features] returns its two lists. *)
Theorem depth_checked_at_startup {A : Type} {EA : Elt A} (T : torch_optim A)
    (rand : nat * nat * nat * nat -> tensor4 A)
    (Resize : nat * nat -> tensor3 A -> tensor3 A) (Content_Size : nat * nat)
    (features : list (layer A)) (content_layers style_layers : list Z) :
  (forall d, In d (content_layers ++ style_layers) ->
             (Z.of_nat (length features) <= d)%Z ->
     Incomplete_CNN features content_layers style_layers = Raise IndexError /\
     forall content_X style_X lr num_epochs lr_decay_epoch,
       Gatys.program T rand Resize Content_Size features content_layers style_layers
                     content_X style_X lr num_epochs lr_decay_epoch
       = Raise IndexError) /\
  (forall net, Incomplete_CNN features content_layers style_layers = Ok net ->
     (forall d, In d (content_layers ++ style_layers) ->
                (d < Z.of_nat (length net))%Z) /\
     (forall X, exists contents styles,
        extract_features net X content_layers style_layers = (contents, styles))).
Proof.
  split.
  - intros d Hd Hdeep.
    pose proof (Incomplete_CNN_too_deep features content_layers style_layers Hd Hdeep) as E.
    split; [exact E|]. intros. unfold Gatys.program. now rewrite E.
  - intros net E. split.
    + intros d Hd. eapply Incomplete_CNN_covers; eassumption.
    + intros X. destruct (extract_features net X content_layers style_layers) as [c s].
      now exists c, s.
Qed.

Lemma depth_checked_at_startup_witness :
  let features : list (layer scalar) := [fun X => X; fun X => X] in
  In 5%Z ([1] ++ [5])%Z /\ (Z.of_nat (length features) <= 5)%Z /\
  Incomplete_CNN features [1]%Z [5]%Z = Raise IndexError.
Proof.
  intros features.
  assert (Hin : In 5%Z ([1] ++ [5])%Z) by (simpl; auto).
  assert (Hd : (Z.of_nat (length features) <= 5)%Z) by (simpl; lia).
  split; [exact Hin|]. split; [exact Hd|].
  apply (proj1 (depth_checked_at_startup still_optim rand_half (fun _ t => t) (0, 0)
                                         features [1]%Z [5]%Z)
               5%Z Hin Hd).
Defined.

(** ** Zero epochs *)

Lemma mapM_total {B1 B2} (f : B1 -> pyresult B2) (l : list B1) :
  Forall (fun a => exists b, f a = Ok b) l -> exists bs, mapM f l = Ok bs.
Proof.
  induction 1 as [|a l [b Hb] _ [bs IH]]; [now exists []|].
  exists (b :: bs). simpl. now rewrite Hb, IH.
Qed.

Lemma copy_same_shape {A} (d : A) N C H W (dst src : tensor4 A) :
  has_shape N C H W dst -> has_shape N C H W src -> copy_ dst src = Ok src.
Proof.
  intros Hd Hs. unfold copy_.
  rewrite (zip4_table (fun _ s => s) d Hd Hs). f_equal.
  symmetry. apply has_shape_tab4, Hs.
Qed.

Lemma map4_id {A} {EA : Elt A} (f : A -> A) (X : tensor4 A) :
  (forall x, f x = x) -> map4 f X = X.
Proof.
  intros Hf. unfold map4.
  rewrite <- (map_id X) at 2. apply map_ext. intros img.
  rewrite <- (map_id img) at 2. apply map_ext. intros ch.
  rewrite <- (map_id ch) at 2. apply map_ext. intros row.
  rewrite <- (map_id row) at 2. apply map_ext. exact Hf.
Qed.

(** C8.  With a step count of 0, [train] of Gatys.py returns the
    synthesized image as [get_inits] made it, which is the content image
    [X]: [torch.rand] gave a tensor of the shape of [X], [copy_] overwrote
    all of it with [X], and no loop iteration ran.  The style activations
    are tensors of shape [(1, C, H, W)] with at least one channel, so that
    their Gram matrices exist. *)
Theorem train_zero_epochs (T : torch_optim scalar)
    (rand : nat * nat * nat * nat -> tensor4 scalar)
    (Resize : nat * nat -> tensor3 scalar -> tensor3 scalar) (Content_Size : nat * nat)
    (net : list (layer scalar)) (content_layers style_layers : list Z)
    (X : tensor4 scalar) (contents_Y_ styles_Y_ : list (tensor4 scalar))
    (lr : Qc) (lr_decay_epoch : Z) (N C H W : nat) :
  has_shape N C H W X ->
  has_shape N C H W (rand (shape4 X)) ->
  Forall (fun Y => exists C' H' W', 1 <= C' /\ has_shape 1 C' H' W' Y) styles_Y_ ->
  Gatys.train T rand Resize Content_Size net content_layers style_layers
              X contents_Y_ styles_Y_ lr 0 lr_decay_epoch = Ok X /\
  exists styles_Y_gram,
    Gatys.get_inits T rand X lr styles_Y_ = Ok (X, styles_Y_gram, LBFGS (LBFGS_new T)).
Proof.
  intros HX HR HS.
  destruct (@mapM_total _ _ gram styles_Y_) as [grams Hg].
  { eapply Forall_impl; [|exact HS]. intros Y (C' & H' & W' & HC & HY).
    eexists. apply (gram_is_gram_spec HY HC). }
  assert (HI : Gatys.get_inits T rand X lr styles_Y_ = Ok (X, grams, LBFGS (LBFGS_new T))).
  { unfold Gatys.get_inits.
    rewrite (map4_id tdetach X) by reflexivity.
    rewrite (copy_same_shape NaN HR HX). cbn [bind].
    rewrite Hg. cbn [bind]. rewrite (map4_id tparam X) by reflexivity.
    reflexivity. }
  split; [|now exists grams].
  unfold Gatys.train, Gatys.train_run. rewrite HI. reflexivity.
Qed.

Lemma train_zero_epochs_witness :
  let X := [[[[Fin 1%Qc; Fin 0%Qc]; [Fin 0%Qc; Fin 1%Qc]]]] in
  has_shape 1 1 2 2 X /\
  Gatys.train still_optim rand_half (fun _ t => t) (0, 0) [fun X => X] [0%Z] [0%Z] X [X] [X]
              (Q2Qc (1 # 2)) 0 50 = Ok X.
Proof.
  intros X.
  assert (HS : has_shape 1 1 2 2 X) by (unfold has_shape; repeat (split || constructor)).
  split; [exact HS|].
  apply (train_zero_epochs still_optim rand_half (fun _ t => t) (0, 0)
           [fun X => X] [0%Z] [0%Z] [X] (Q2Qc (1 # 2)) 50 HS).
  - apply (has_shape_of_tab4 1 1 2 2).
  - constructor; [|constructor]. exists 1, 2, 2. split; [lia|exact HS].
Defined.

(** ** The training loop and the value of the loss *)

Section LoopFacts.
Context {A : Type} {EA : Elt A}.
Variable T : torch_optim A.
Variable Resize : nat * nat -> tensor3 A -> tensor3 A.
Variable Content_Size : nat * nat.
Variable net : list (layer A).
Variables content_layers style_layers : list Z.

Lemma scheduler_step_total (sch : StepLR) (lr : Qc) :
  step_size sch <> 0%Z -> exists s, scheduler_step sch lr = Ok s.
Proof.
  intros Hs. unfold scheduler_step.
  destruct (Z.eqb_spec (step_size sch) 0) as [|_]; [contradiction|].
  destruct (_ =? 0)%Z; eauto.
Qed.

Lemma scalar_steps_app (w1 w2 : list (record A)) :
  scalar_steps (w1 ++ w2) = scalar_steps w1 ++ scalar_steps w2.
Proof. unfold scalar_steps. apply flat_map_app. Qed.

Lemma Gatys_epoch_body_steps (st st' : run T) (epoch : Z) :
  Gatys.epoch_body Resize Content_Size net content_layers style_layers st epoch = Ok st' ->
  scalar_steps (writer st') = scalar_steps (writer st) ++ [epoch] /\
  contents_Y st' = contents_Y st /\ styles_Y_gram_ st' = styles_Y_gram_ st.
Proof.
  unfold Gatys.epoch_body. intros E.
  match type of E with (r <- ?m ;; _) = _ => destruct m as [[[tr X'] ll]|] end;
    [|discriminate]. cbn [bind] in E.
  match type of E with (w2 <- ?m ;; _) = _ => destruct m as [w2|] eqn:Ew end;
    [|discriminate]. cbn [bind] in E.
  destruct (scheduler_step (scheduler st) (lr_ st)) as [s|]; [|discriminate].
  cbn [bind] in E. apply Ok_inj in E. subst st'. simpl.
  repeat split.
  destruct ((epoch + 1) mod 20 =? 0)%Z.
  - destruct (Gatys.snapshot Resize Content_Size X') as [img|]; [|discriminate].
    cbn [bind] in Ew. apply Ok_inj in Ew. subst w2.
    rewrite !scalar_steps_app. simpl. now rewrite app_nil_r.
  - apply Ok_inj in Ew. subst w2. now rewrite scalar_steps_app.
Qed.

Lemma Main_epoch_body_steps (st st' : run T) (epoch : Z) :
  Main.epoch_body net content_layers style_layers st epoch = Ok st' ->
  scalar_steps (writer st') = scalar_steps (writer st) ++ [epoch] /\
  contents_Y st' = contents_Y st /\ styles_Y_gram_ st' = styles_Y_gram_ st.
Proof.
  unfold Main.epoch_body. intros E.
  match type of E with (ll <- ?m ;; _) = _ => destruct m as [ll|] end;
    [|discriminate]. cbn [bind] in E.
  match type of E with (r <- ?m ;; _) = _ => destruct m as [r|] end;
    [|discriminate]. cbn [bind] in E.
  destruct (scheduler_step (scheduler st) (lr_ st)) as [s|]; [|discriminate].
  cbn [bind] in E. apply Ok_inj in E. subst st'. simpl.
  repeat split. now rewrite scalar_steps_app.
Qed.

Lemma Gatys_epochs_steps (l : list Z) (st st' : run T) :
  Gatys.epochs Resize Content_Size net content_layers style_layers l st = Ok st' ->
  scalar_steps (writer st') = scalar_steps (writer st) ++ l /\
  contents_Y st' = contents_Y st /\ styles_Y_gram_ st' = styles_Y_gram_ st.
Proof.
  revert st; induction l as [|e l IH]; intros st E; simpl in E.
  - apply Ok_inj in E. subst. now rewrite app_nil_r.
  - destruct (Gatys.epoch_body Resize Content_Size net content_layers style_layers st e)
      as [st1|] eqn:E1; [|discriminate]. cbn [bind] in E.
    apply Gatys_epoch_body_steps in E1 as (W1 & C1 & S1).
    apply IH in E as (W & C & S). rewrite W, W1, C, C1, S, S1, <- app_assoc.
    auto.
Qed.

Lemma Main_epochs_steps (l : list Z) (st st' : run T) :
  Main.epochs net content_layers style_layers l st = Ok st' ->
  scalar_steps (writer st') = scalar_steps (writer st) ++ l /\
  contents_Y st' = contents_Y st /\ styles_Y_gram_ st' = styles_Y_gram_ st.
Proof.
  revert st; induction l as [|e l IH]; intros st E; simpl in E.
  - apply Ok_inj in E. subst. now rewrite app_nil_r.
  - destruct (Main.epoch_body net content_layers style_layers st e) as [st1|] eqn:E1;
      [|discriminate]. cbn [bind] in E.
    apply Main_epoch_body_steps in E1 as (W1 & C1 & S1).
    apply IH in E as (W & C & S). rewrite W, W1, C, C1, S, S1, <- app_assoc.
    auto.
Qed.

End LoopFacts.

(** C6, as the code has it.  Neither training loop looks at the value of
    the loss.  In Gatys.py a step whose optimizer call, loss evaluation,
    snapshot (when one is due: every 20th epoch the image is resized,
    denormalised and clamped, which raises for an image of 2 channels, say)
    and scheduler call return normally writes the loss [ll], whatever it
    is, to the writer and yields the next state; in main.py a step whose
    loss evaluation and scheduler call return normally does the same; and a
    run that returns has written one loss per epoch of [range(num_epochs)],
    in order. *)
Theorem training_step_ignores_loss_value {A : Type} {EA : Elt A} (T : torch_optim A)
    (Resize : nat * nat -> tensor3 A -> tensor3 A) (Content_Size : nat * nat)
    (net : list (layer A)) (content_layers style_layers : list Z) :
  (forall (st : run T) (epoch : Z) s p ll,
     trainer st = LBFGS s ->
     LBFGS_step T (Gatys.loss net content_layers style_layers
                              (contents_Y st) (styles_Y_gram_ st))
                (lr_ st) s (X_ st) = Ok p ->
     Gatys.loss net content_layers style_layers
                (contents_Y st) (styles_Y_gram_ st) (snd p) = Ok ll ->
     (((epoch + 1) mod 20 =? 0)%Z = true ->
      exists img, Gatys.snapshot Resize Content_Size (snd p) = Ok img) ->
     step_size (scheduler st) <> 0%Z ->
     exists st',
       Gatys.epoch_body Resize Content_Size net content_layers style_layers st epoch
         = Ok st' /\
       X_ st' = snd p /\ In (add_scalar ll epoch) (writer st')) /\
  (forall (st : run T) (epoch : Z) s ll,
     trainer st = Adam s ->
     Main.loss net content_layers style_layers
               (contents_Y st) (styles_Y_gram_ st) (X_ st) = Ok ll ->
     step_size (scheduler st) <> 0%Z ->
     exists st', Main.epoch_body net content_layers style_layers st epoch = Ok st' /\
                 writer st' = writer st ++ [add_scalar ll epoch]) /\
  (forall l (st st' : run T),
     Gatys.epochs Resize Content_Size net content_layers style_layers l st = Ok st' ->
     scalar_steps (writer st') = scalar_steps (writer st) ++ l) /\
  (forall l (st st' : run T),
     Main.epochs net content_layers style_layers l st = Ok st' ->
     scalar_steps (writer st') = scalar_steps (writer st) ++ l).
Proof.
  split; [|split; [|split]].
  - intros st epoch s p ll Ht Hstep Hll Hsnap Hsch.
    destruct (scheduler_step_total (scheduler st) (lr_ st) Hsch) as [r Hr].
    unfold Gatys.epoch_body. rewrite Ht, Hstep. cbn [bind]. rewrite Hll. cbn [bind].
    destruct ((epoch + 1) mod 20 =? 0)%Z.
    + destruct (Hsnap eq_refl) as [img ->]. cbn [bind]. rewrite Hr. cbn [bind].
      eexists. split; [reflexivity|]. simpl. split; [reflexivity|].
      rewrite !in_app_iff. simpl. auto.
    + cbn [bind]. rewrite Hr. cbn [bind].
      eexists. split; [reflexivity|]. simpl. split; [reflexivity|].
      rewrite in_app_iff. simpl. auto.
  - intros st epoch s ll Ht Hll Hsch.
    destruct (scheduler_step_total (scheduler st) (lr_ st) Hsch) as [r Hr].
    unfold Main.epoch_body. rewrite Hll, Ht. cbn [bind]. rewrite Hr. cbn [bind].
    eexists. split; reflexivity.
  - intros l st st' E. now apply Gatys_epochs_steps in E.
  - intros l st st' E. now apply Main_epochs_steps in E.
Qed.

Lemma training_step_ignores_loss_value_witness :
  let X := [[[[Fin 1%Qc]]]] in
  let st := MkRun X (@LBFGS _ still_optim tt) (Q2Qc (1 # 2))
                  (MkStepLR 50 (Q2Qc (8 # 10)) 19) [] [X] [Matrix 1 1 [[Fin 1%Qc]]] in
  Gatys.loss [fun X => X] [0%Z] [0%Z] (contents_Y st) (styles_Y_gram_ st) X = Ok NaN /\
  (exists img, Gatys.snapshot (fun _ t => t) (0, 0) X = Ok img) /\
  exists st', Gatys.epoch_body (fun _ t => t) (0, 0) [fun X => X] [0%Z] [0%Z] st 19
                = Ok st' /\
              X_ st' = X /\ In (add_scalar NaN 19%Z) (writer st').
Proof.
  intros X st. split; [reflexivity|].
  assert (Hsnap : exists img, Gatys.snapshot (fun _ t => t) (0, 0) X = Ok img).
  { eexists. vm_compute. reflexivity. }
  split; [exact Hsnap|].
  apply (proj1 (training_step_ignores_loss_value still_optim (fun _ t => t) (0, 0)
                  [fun X => X] [0%Z] [0%Z])
               st 19%Z tt (tt, X) NaN).
  - reflexivity.
  - reflexivity.
  - reflexivity.
  - intros _. exact Hsnap.
  - discriminate.
Defined.

(** C6 as stated fails: a one-pixel image makes the total-variation term,
    and with it the total loss, NaN at step 0; both loops write it to the
    writer, take step 1 as well, and return the image. *)
Lemma training_continues_after_nan_counterexample :
  let X := [[[[Fin 1%Qc]]]] in
  (exists st,
     Gatys.train_run still_optim rand_half (fun _ t => t) (0, 0) [fun X => X] [0%Z] [0%Z] X [X] [X]
                     (Q2Qc (1 # 2)) 2 50 = Ok st /\
     writer st = [add_scalar NaN 0%Z; add_scalar NaN 1%Z] /\ X_ st = X) /\
  (exists st,
     Main.train_run still_optim X [fun X => X] [0%Z] [0%Z] X [X] [X]
                    (Q2Qc (1 # 2)) 2 50 = Ok st /\
     writer st = [add_scalar NaN 0%Z; add_scalar NaN 1%Z] /\ X_ st = X).
Proof.
  intros X. split.
  - eexists. split; [vm_compute; reflexivity|]. split; reflexivity.
  - eexists. split; [vm_compute; reflexivity|]. split; reflexivity.
Qed.

(** ** What the total loss depends on *)

Lemma Forall_tl {B} (P : B -> Prop) (l : list B) : Forall P l -> Forall P (tl l).
Proof. destruct 1; [constructor|assumption]. Qed.

Lemma Forall_removelast {B} (P : B -> Prop) (l : list B) :
  Forall P l -> Forall P (removelast l).
Proof.
  induction 1 as [|x l Hx Hl IH]; simpl; [constructor|].
  destruct l; [constructor|]. constructor; assumption.
Qed.

Lemma Forall_firstn {B} (P : B -> Prop) (n : nat) (l : list B) :
  Forall P l -> Forall P (firstn n l).
Proof.
  intros Hl. revert n; induction Hl; intros [|n]; simpl; constructor; auto.
Qed.

Lemma Forall_skipn {B} (P : B -> Prop) (n : nat) (l : list B) :
  Forall P l -> Forall P (skipn n l).
Proof.
  intros Hl. revert n; induction Hl; intros [|n]; simpl; auto.
Qed.

Lemma zip_exact_Forall {B1 B2 B3} (f : B1 -> B2 -> pyresult B3)
    (P1 : B1 -> Prop) (P2 : B2 -> Prop) (Q : B3 -> Prop) l1 l2 l :
  (forall a b c, P1 a -> P2 b -> f a b = Ok c -> Q c) ->
  Forall P1 l1 -> Forall P2 l2 -> zip_exact f l1 l2 = Ok l -> Forall Q l.
Proof.
  intros Hf H1. revert l2 l; induction H1 as [|a l1 Ha _ IH]; intros l2 l H2 E;
    destruct l2 as [|b l2]; simpl in E; try discriminate.
  - apply Ok_inj in E. subst. constructor.
  - inversion H2; subst.
    destruct (f a b) as [c|] eqn:Ec; [|discriminate]. cbn [bind] in E.
    destruct (zip_exact f l1 l2) as [cs|] eqn:Ez; [|discriminate]. cbn [bind] in E.
    apply Ok_inj in E. subst. constructor; eauto.
Qed.

Lemma mapM_Forall {B1 B2} (f : B1 -> pyresult B2) (P : B1 -> Prop) (Q : B2 -> Prop) l bs :
  (forall a b, P a -> f a = Ok b -> Q b) ->
  Forall P l -> mapM f l = Ok bs -> Forall Q bs.
Proof.
  intros Hf Hl. revert bs; induction Hl as [|a l Ha _ IH]; intros bs E; simpl in E.
  - apply Ok_inj in E. subst. constructor.
  - destruct (f a) as [b|] eqn:Eb; [|discriminate]. cbn [bind] in E.
    destruct (mapM f l) as [bs'|]; [|discriminate]. cbn [bind] in E.
    apply Ok_inj in E. subst. constructor; eauto.
Qed.

Section Within.
Variable S : list nat.

Lemma within_lit (q : Qc) : (within S) (tlit q).
Proof. apply incl_nil_l. Qed.

Lemma within_detach (x : tracked) : (within S) (tdetach x).
Proof. apply incl_nil_l. Qed.

Lemma within_lift2 f (x y : tracked) : (within S) x -> (within S) y -> (within S) (lift2 f x y).
Proof. intros. unfold within. simpl. now apply incl_app. Qed.

Lemma within_abs (x : tracked) : (within S) x -> (within S) (tabs x).
Proof. auto. Qed.

Lemma within_square (x : tracked) : (within S) x -> (within S) (square x).
Proof. intros. now apply within_lift2. Qed.

Lemma within_tsum (l : list tracked) : Forall (within S) l -> (within S) (tsum l).
Proof.
  unfold tsum. generalize (within_lit (q:=0%Qc)). generalize (@tlit tracked _ 0%Qc).
  intros a Ha Hl. revert a Ha; induction Hl; intros a Ha; simpl; [exact Ha|].
  apply IHHl. now apply within_lift2.
Qed.

Lemma within_mean (l : list tracked) : Forall (within S) l -> (within S) (mean l).
Proof. intros. apply within_lift2; [now apply within_tsum|apply within_lit]. Qed.

Lemma all4_flatten4 (X : tensor4 tracked) : all4 (within S) X -> Forall (within S) (flatten4 X).
Proof.
  intros HX. unfold flatten4. apply Forall_concat, Forall_map.
  eapply Forall_impl; [|exact HX]. intros img Himg.
  apply Forall_concat, Forall_map. eapply Forall_impl; [|exact Himg].
  intros ch Hch. now apply Forall_concat.
Qed.

Lemma all4_map4 (f : tracked -> tracked) (X : tensor4 tracked) :
  (forall x, (within S) x -> (within S) (f x)) -> all4 (within S) X -> all4 (within S) (map4 f X).
Proof.
  intros Hf HX. unfold map4, all4 in *.
  apply Forall_map. eapply Forall_impl; [|exact HX]. intros img Himg.
  apply Forall_map. eapply Forall_impl; [|exact Himg]. intros ch Hch.
  apply Forall_map. eapply Forall_impl; [|exact Hch]. intros row Hrow.
  apply Forall_map. eapply Forall_impl; [|exact Hrow]. exact Hf.
Qed.

Lemma all4_detached (Y : tensor4 tracked) : all4 (within S) (map4 tdetach Y).
Proof.
  unfold map4, all4.
  repeat (apply Forall_map, Forall_forall; intros ? _). apply within_detach.
Qed.

Lemma all4_sub4 (X Y D : tensor4 tracked) :
  all4 (within S) X -> all4 (within S) Y -> sub4 X Y = Ok D -> all4 (within S) D.
Proof.
  unfold sub4, all4.
  apply zip_exact_Forall. intros a1 b1 c1.
  apply zip_exact_Forall. intros a2 b2 c2.
  apply zip_exact_Forall. intros a3 b3 c3.
  apply zip_exact_Forall. intros x y d Hx Hy E.
  apply Ok_inj in E. subst d. now apply within_lift2.
Qed.

Lemma within_content_loss (Y_hat Y : tensor4 tracked) (l : tracked) :
  all4 (within S) Y_hat -> content_loss Y_hat Y = Ok l -> (within S) l.
Proof.
  unfold content_loss. intros HY E.
  destruct (sub4 Y_hat (map4 tdetach Y)) as [D|] eqn:ED; [|discriminate].
  cbn [bind] in E. apply Ok_inj in E. subst l.
  apply within_mean, all4_flatten4, all4_map4; [apply within_square|].
  eapply all4_sub4; [exact HY|apply all4_detached|exact ED].
Qed.

Lemma within_tv_loss (X : tensor4 tracked) (l : tracked) :
  all4 (within S) X -> tv_loss X = Ok l -> (within S) l.
Proof.
  unfold tv_loss. intros HX E.
  assert (R1 : all4 (within S) (rows_from_1 X)).
  { unfold rows_from_1, all4 in *. apply Forall_map.
    eapply Forall_impl; [|exact HX]. intros img Himg. apply Forall_map.
    eapply Forall_impl; [|exact Himg]. intros ch. apply Forall_tl. }
  assert (R2 : all4 (within S) (rows_to_last X)).
  { unfold rows_to_last, all4 in *. apply Forall_map.
    eapply Forall_impl; [|exact HX]. intros img Himg. apply Forall_map.
    eapply Forall_impl; [|exact Himg]. intros ch. apply Forall_removelast. }
  assert (C1 : all4 (within S) (cols_from_1 X)).
  { unfold cols_from_1, all4 in *. apply Forall_map.
    eapply Forall_impl; [|exact HX]. intros img Himg. apply Forall_map.
    eapply Forall_impl; [|exact Himg]. intros ch Hch. apply Forall_map.
    eapply Forall_impl; [|exact Hch]. intros row. apply Forall_tl. }
  assert (C2 : all4 (within S) (cols_to_last X)).
  { unfold cols_to_last, all4 in *. apply Forall_map.
    eapply Forall_impl; [|exact HX]. intros img Himg. apply Forall_map.
    eapply Forall_impl; [|exact Himg]. intros ch Hch. apply Forall_map.
    eapply Forall_impl; [|exact Hch]. intros row. apply Forall_removelast. }
  destruct (sub4 (rows_from_1 X) (rows_to_last X)) as [Dv|] eqn:Ev; [|discriminate].
  cbn [bind] in E.
  destruct (sub4 (cols_from_1 X) (cols_to_last X)) as [Dh|] eqn:Eh; [|discriminate].
  cbn [bind] in E. apply Ok_inj in E. subst l.
  apply within_lift2; [apply within_lit|].
  apply within_lift2; apply within_mean, all4_flatten4, all4_map4;
    try apply within_abs.
  - exact (all4_sub4 R1 R2 Ev).
  - exact (all4_sub4 C1 C2 Eh).
Qed.

End Within.

Section WithinStyle.
Variable S : list nat.

Lemma within_entry (M : matrix tracked) (i j : nat) :
  Forall (Forall (within S)) (rows M) -> within S (entry M i j).
Proof.
  intros HM. unfold entry.
  destruct (nth_in_or_default i (rows M) []) as [Hi | ->].
  - rewrite Forall_forall in HM. specialize (HM _ Hi).
    destruct (nth_in_or_default j (nth i (rows M) []) (tlit 0%Qc)) as [Hj | ->].
    + rewrite Forall_forall in HM. now apply HM.
    + apply within_lit.
  - destruct j; apply within_lit.
Qed.

Lemma within_tabulate (r c : nat) (f : nat -> nat -> tracked) :
  (forall i j, within S (f i j)) -> Forall (Forall (within S)) (rows (tabulate r c f)).
Proof.
  intros Hf. unfold tabulate. simpl.
  apply Forall_map, Forall_forall. intros i _.
  apply Forall_map, Forall_forall. intros j _. apply Hf.
Qed.

Lemma within_gram (X : tensor4 tracked) (G : matrix tracked) :
  all4 (within S) X -> gram X = Ok G -> Forall (Forall (within S)) (rows G).
Proof.
  unfold gram. intros HX E.
  destruct (py_floordiv (numel4 X) (shape1 X)) as [n|]; [|discriminate].
  cbn [bind] in E.
  destruct (reshape X (shape1 X) n) as [X'|] eqn:ER; [|discriminate].
  cbn [bind] in E.
  assert (HR : Forall (Forall (within S)) (rows X')).
  { unfold reshape in ER. destruct (_ =? _); [|discriminate].
    apply Ok_inj in ER. subst X'. simpl.
    apply Forall_map, Forall_forall. intros i _.
    apply Forall_firstn, Forall_skipn, all4_flatten4, HX. }
  destruct (matmul X' (transpose X')) as [M|] eqn:EM; [|discriminate].
  cbn [bind] in E. apply Ok_inj in E. subst G.
  unfold matmul in EM. destruct (_ =? _); [|discriminate].
  apply Ok_inj in EM. subst M. unfold mmap, tabulate. simpl.
  rewrite map_map. apply Forall_map, Forall_forall. intros i _.
  rewrite map_map. apply Forall_map, Forall_forall. intros j _.
  apply within_lift2; [|apply within_lit].
  apply within_tsum, Forall_map, Forall_forall. intros k _.
  apply within_lift2; [apply within_entry, HR|].
  apply within_entry. unfold transpose. apply within_tabulate.
  intros i' j'. apply within_entry, HR.
Qed.

Lemma within_style_loss (Y_hat : tensor4 tracked) (gram_Y : matrix tracked) (l : tracked) :
  all4 (within S) Y_hat -> style_loss Y_hat gram_Y = Ok l -> within S l.
Proof.
  unfold style_loss. intros HY E.
  destruct (gram Y_hat) as [G|] eqn:EG; [|discriminate]. cbn [bind] in E.
  pose proof (within_gram HY EG) as HG.
  destruct (msub G (mmap tdetach gram_Y)) as [D|] eqn:ED; [|discriminate].
  cbn [bind] in E. apply Ok_inj in E. subst l.
  apply within_lift2; [|apply within_lit].
  unfold meanm. apply within_mean, Forall_concat. unfold mmap. simpl.
  unfold msub in ED. destruct (_ && _); [|discriminate].
  destruct (zip_exact _ (rows G) _) as [rs|] eqn:EZ; [|discriminate].
  cbn [bind] in ED. apply Ok_inj in ED. subst D. simpl.
  apply Forall_map.
  assert (HD : Forall (Forall (within S)) rs).
  { revert EZ. apply zip_exact_Forall with (P1 := Forall (within S))
                                           (P2 := Forall (within S)).
    - intros a b c. apply zip_exact_Forall. intros x y d Hx Hy Ed.
      apply Ok_inj in Ed. subst d. now apply within_lift2.
    - exact HG.
    - unfold mmap. simpl. apply Forall_map, Forall_forall. intros row _.
      apply Forall_map, Forall_forall. intros x _. apply within_detach. }
  eapply Forall_impl; [|exact HD]. intros row Hrow.
  apply Forall_map. eapply Forall_impl; [|exact Hrow].
  intros x Hx. now apply within_square.
Qed.

Lemma within_py_add (p q : pynum tracked) :
  within S (py_value p) -> within S (py_value q) -> within S (py_value (py_add p q)).
Proof.
  destruct p, q; simpl; intros Hp Hq;
    try (apply within_lift2; assumption); apply within_lit.
Qed.

Lemma within_py_sum (l : list tracked) :
  Forall (within S) l -> within S (py_value (py_sum l)).
Proof.
  intros Hl. rewrite py_sum_cases. destruct l; [apply within_lit|].
  simpl. now apply within_tsum.
Qed.

Lemma within_py_truediv (p q : pynum tracked) (n : Z) :
  within S (py_value p) -> py_truediv p n = Ok q -> within S (py_value q).
Proof.
  destruct p; simpl; intros Hp E;
    try (destruct (n =? 0)%Z; [discriminate|]);
    apply Ok_inj in E; subst q; simpl;
    (apply within_lift2; [|apply within_lit]); auto.
Qed.

Lemma within_weighted_losses {R : Type} (w : Z)
    (loss : tensor4 tracked -> R -> pyresult tracked)
    (hats : list (tensor4 tracked)) (refs : list R) (ls : list tracked) :
  (forall Y G l, all4 (within S) Y -> loss Y G = Ok l -> within S l) ->
  Forall (all4 (within S)) hats ->
  mapM (fun p => l <- loss (fst p) (snd p) ;; Ok (tmul l (tlit (Qc_of_Z w))))
       (combine hats refs) = Ok ls ->
  Forall (within S) ls.
Proof.
  intros Hloss Hh. apply mapM_Forall with (P := fun p => all4 (within S) (fst p)).
  - intros [Y G] b HY E. simpl in *.
    destruct (loss Y G) as [l|] eqn:El; [|discriminate]. cbn [bind] in E.
    apply Ok_inj in E. subst b.
    apply within_lift2; [eapply Hloss; eassumption|apply within_lit].
  - apply Forall_forall. intros [Y G] Hin. apply in_combine_l in Hin.
    rewrite Forall_forall in Hh. now apply Hh.
Qed.

End WithinStyle.

Lemma within_Gatys_compute_loss (S : list nat) (X : tensor4 tracked) ch sh cY sg r :
  all4 (within S) X -> Forall (all4 (within S)) ch -> Forall (all4 (within S)) sh ->
  Gatys.compute_loss X ch sh cY sg = Ok r ->
  within S (py_value (snd r)).
Proof.
  intros HX Hc Hs E. unfold Gatys.compute_loss in E.
  destruct (mapM _ (combine ch cY)) as [cl|] eqn:Ec; [|discriminate]. cbn [bind] in E.
  destruct (mapM _ (combine sh sg)) as [sl|] eqn:Es; [|discriminate]. cbn [bind] in E.
  destruct (tv_loss X) as [tv|] eqn:Et; [|discriminate]. cbn [bind] in E.
  destruct (Gatys.style_term sl) as [st|] eqn:Est; [|discriminate]. cbn [bind] in E.
  apply Ok_inj in E. subst r. cbn [snd].
  apply (within_weighted_losses (S := S) Gatys.CONTENT_WEIGHT content_loss) in Ec;
    [|intros Y G l; apply within_content_loss|exact Hc].
  apply (within_weighted_losses (S := S) Gatys.STYLE_WEIGHT style_loss) in Es;
    [|intros Y G l; apply within_style_loss|exact Hs].
  apply within_py_add; [apply within_py_add|].
  - eapply within_py_truediv; [|exact Est]. now apply within_py_sum.
  - now apply within_py_sum.
  - simpl. apply within_lift2; [|apply within_lit].
    eapply within_tv_loss; eassumption.
Qed.

Lemma within_Main_compute_loss (S : list nat) (X : tensor4 tracked) ch sh cY sg r :
  all4 (within S) X -> Forall (all4 (within S)) ch -> Forall (all4 (within S)) sh ->
  Main.compute_loss X ch sh cY sg = Ok r ->
  within S (py_value (snd r)).
Proof.
  intros HX Hc Hs E. unfold Main.compute_loss in E.
  destruct (mapM _ (combine ch cY)) as [cl|] eqn:Ec; [|discriminate]. cbn [bind] in E.
  destruct (mapM _ (combine sh sg)) as [sl|] eqn:Es; [|discriminate]. cbn [bind] in E.
  destruct (tv_loss X) as [tv|] eqn:Et; [|discriminate]. cbn [bind] in E.
  destruct (Main.style_term sl) as [st|] eqn:Est; [|discriminate]. cbn [bind] in E.
  apply Ok_inj in E. subst r. cbn [snd].
  apply (within_weighted_losses (S := S) Main.content_weight content_loss) in Ec;
    [|intros Y G l; apply within_content_loss|exact Hc].
  apply (within_weighted_losses (S := S) Main.style_weight style_loss) in Es;
    [|intros Y G l; apply within_style_loss|exact Hs].
  apply within_py_add; [apply within_py_add|].
  - eapply within_py_truediv; [|exact Est]. now apply within_py_sum.
  - now apply within_py_sum.
  - apply within_py_sum. constructor; [|constructor].
    apply within_lift2; [|apply within_lit].
    eapply within_tv_loss; eassumption.
Qed.

(** ** The references *)

Lemma Gatys_train_run_references {A : Type} {EA : Elt A} (T : torch_optim A)
    rand Resize Content_Size net content_layers style_layers X contents_Y_ styles_Y_
    lr num_epochs lr_decay_epoch (st : run T) :
  Gatys.train_run T rand Resize Content_Size net content_layers style_layers
                  X contents_Y_ styles_Y_ lr num_epochs lr_decay_epoch = Ok st ->
  contents_Y st = contents_Y_ /\ mapM gram styles_Y_ = Ok (styles_Y_gram_ st).
Proof.
  unfold Gatys.train_run, Gatys.get_inits. intros E.
  destruct (copy_ _ _) as [data|]; [|discriminate]. cbn [bind] in E.
  destruct (mapM gram styles_Y_) as [grams|]; [|discriminate]. cbn [bind] in E.
  apply Gatys_epochs_steps in E as (_ & C & G). simpl in C, G.
  now rewrite C, G.
Qed.

Lemma Main_train_run_references {A : Type} {EA : Elt A} (T : torch_optim A)
    preprocessed_content net content_layers style_layers X contents_Y_ styles_Y_ lr
    num_epochs lr_decay_epoch (st : run T) :
  Main.train_run T preprocessed_content net content_layers style_layers
                 X contents_Y_ styles_Y_ lr num_epochs lr_decay_epoch = Ok st ->
  contents_Y st = contents_Y_ /\ mapM gram styles_Y_ = Ok (styles_Y_gram_ st).
Proof.
  unfold Main.train_run, Main.get_inits. intros E.
  destruct (copy_ _ _) as [data|]; [|discriminate]. cbn [bind] in E.
  destruct (is_neg lr); [discriminate|]. cbn [bind] in E.
  destruct (mapM gram styles_Y_) as [grams|]; [|discriminate]. cbn [bind] in E.
  apply Main_epochs_steps in E as (_ & C & G). simpl in C, G.
  now rewrite C, G.
Qed.

(** C3.  The references are never updated: in the state that a run of
    [train] ends in, the content reference is the list that was passed in and
    the style reference is the list of Gram matrices computed in [get_inits],
    whatever the optimizer did in between.  And the references receive no
    gradient: every graph node in the history of the total loss lies in the
    history of the image or of its activations; the histories of the
    references, whatever they are, contribute nothing, because
    [content_loss] and [style_loss] detach them. *)
Theorem references_are_constants :
  (forall (T : torch_optim tracked) rand Resize Content_Size net content_layers
          style_layers X contents_Y_ styles_Y_ lr num_epochs lr_decay_epoch (st : run T),
     Gatys.train_run T rand Resize Content_Size net content_layers style_layers
                     X contents_Y_ styles_Y_ lr num_epochs lr_decay_epoch = Ok st ->
     contents_Y st = contents_Y_ /\ mapM gram styles_Y_ = Ok (styles_Y_gram_ st)) /\
  (forall (T : torch_optim tracked) preprocessed_content net content_layers style_layers
          X contents_Y_ styles_Y_ lr num_epochs lr_decay_epoch (st : run T),
     Main.train_run T preprocessed_content net content_layers style_layers
                    X contents_Y_ styles_Y_ lr num_epochs lr_decay_epoch = Ok st ->
     contents_Y st = contents_Y_ /\ mapM gram styles_Y_ = Ok (styles_Y_gram_ st)) /\
  (forall (S : list nat) (X : tensor4 tracked) contents_Y_hat styles_Y_hat
          contents_Y_ styles_Y_gram r,
     all4 (within S) X ->
     Forall (all4 (within S)) contents_Y_hat ->
     Forall (all4 (within S)) styles_Y_hat ->
     Gatys.compute_loss X contents_Y_hat styles_Y_hat contents_Y_ styles_Y_gram = Ok r ->
     within S (py_value (snd r))) /\
  (forall (S : list nat) (X : tensor4 tracked) contents_Y_hat styles_Y_hat
          contents_Y_ styles_Y_gram r,
     all4 (within S) X ->
     Forall (all4 (within S)) contents_Y_hat ->
     Forall (all4 (within S)) styles_Y_hat ->
     Main.compute_loss X contents_Y_hat styles_Y_hat contents_Y_ styles_Y_gram = Ok r ->
     within S (py_value (snd r))).
Proof.
  split; [|split; [|split]].
  - intros until st. apply Gatys_train_run_references.
  - intros until st. apply Main_train_run_references.
  - intros S X ch sh cY sg r HX Hc Hs E.
    apply within_Gatys_compute_loss with (X:=X) (ch:=ch) (sh:=sh) (cY:=cY) (sg:=sg);
      assumption.
  - intros S X ch sh cY sg r HX Hc Hs E.
    apply within_Main_compute_loss with (X:=X) (ch:=ch) (sh:=sh) (cY:=cY) (sg:=sg);
      assumption.
Qed.

Lemma references_are_constants_witness :
  let x (q : Qc) := Tracked (Fin q) [image_node] in
  let y (q : Qc) := Tracked (Fin q) [7] in
  let X := [[[[x 1%Qc; x 0%Qc]; [x 0%Qc; x 1%Qc]]]] in
  let Y := [[[[y 0%Qc; y 1%Qc]; [y 1%Qc; y 0%Qc]]]] in
  let G := Matrix 1 1 [[y 0%Qc]] in
  exists r, Gatys.compute_loss X [X] [X] [Y] [G] = Ok r /\
            all4 (within [image_node]) X /\
            ~ In 7 (hist (py_value (snd r))).
Proof.
  intros x y X Y G.
  destruct (Gatys.compute_loss X [X] [X] [Y] [G]) as [r|] eqn:E; [|discriminate E].
  assert (HX : all4 (within [image_node]) X).
  { assert (Hx : forall q, within [image_node] (x q)) by (intros q a Ha; exact Ha).
    unfold all4, X. repeat (apply Forall_cons || apply Forall_nil || apply Hx). }
  exists r. split; [reflexivity|]. split; [exact HX|].
  pose proof (proj1 (proj2 (proj2 references_are_constants))
                [image_node] X [X] [X] [Y] [G] r HX
                (Forall_cons _ HX (Forall_nil _)) (Forall_cons _ HX (Forall_nil _)) E) as W.
  intros H7. apply W in H7. destruct H7 as [H7|[]]. discriminate H7.
Defined.

(** * Further properties of the code *)

(** ** Content loss *)

Lemma flatten4_tab4_nonempty {A} N C H W (f : nat -> nat -> nat -> nat -> A) :
  1 <= N -> 1 <= C -> 1 <= H -> 1 <= W -> flatten4 (tab4 N C H W f) <> [].
Proof.
  intros HN HC HH HW E. apply (f_equal (@length A)) in E.
  rewrite flatten4_tab4_length in E. simpl in E.
  repeat (apply Nat.eq_mul_0 in E as [E|E]); lia.
Qed.

(** In binary32 the content loss of two non-empty tensors of one shape
    whose entries are numbers (no infinity, no NaN), with fewer than [2^24]
    entries, is returned, is never NaN and never negative, and is [+0] when
    the two tensors are equal. *)
Theorem content_loss_nonneg (N C H W : nat) (Y_hat Y : tensor4 float32) :
  has_shape N C H W Y_hat -> has_shape N C H W Y ->
  all4 f32_finite Y_hat -> all4 f32_finite Y ->
  1 <= N -> 1 <= C -> 1 <= H -> 1 <= W ->
  (Z.of_nat (N * C * H * W) < 2 ^ 24)%Z ->
  exists r, content_loss Y_hat Y = Ok r /\ f32_nonneg r /\
            (Y_hat = Y -> r = S754_zero false).
Proof.
  intros HX HY FX FY HN HC HH HW Hcount.
  unfold content_loss. rewrite (map4_id tdetach Y) by reflexivity.
  rewrite (sub4_table (tlit 0%Qc) HX HY). cbn [bind]. unfold mean4. rewrite map4_tab4.
  set (f := fun n c h w => square (tsub (get4 (tlit 0%Qc) Y_hat n c h w)
                                        (get4 (tlit 0%Qc) Y n c h w))).
  set (l := flatten4 (tab4 N C H W f)).
  assert (Nl : l <> []) by (apply flatten4_tab4_nonempty; assumption).
  assert (Cl : (Z.of_nat (length l) < 2 ^ 24)%Z).
  { unfold l. now rewrite flatten4_tab4_length. }
  eexists. split; [reflexivity|]. split.
  - apply (f32_mean_nonneg Nl Cl). apply Forall_forall. intros x Hx.
    apply in_flatten4_tab4 in Hx as (n & c & h & w & Hn & Hc & Hh & Hw & ->).
    apply f32_square_nonneg, f32_sub_number.
    + apply (all4_get4 _ HX FX); assumption.
    + apply (all4_get4 _ HY FY); assumption.
  - intros E. apply (f32_mean_zeros Nl Cl). apply Forall_forall. intros x Hx.
    apply in_flatten4_tab4 in Hx as (n & c & h & w & Hn & Hc & Hh & Hw & ->).
    unfold f. rewrite E. unfold square. cbn [tmul tsub Elt_float32].
    rewrite f32_sub_diag; [reflexivity|].
    apply (all4_get4 _ HY FY); assumption.
Qed.

Lemma content_loss_nonneg_witness :
  let X := [[[[f32_lit 1%Qc; S754_zero false]]]] in
  has_shape 1 1 1 2 X /\ all4 f32_finite X /\
  content_loss X X = Ok (S754_zero false).
Proof.
  intros X.
  assert (HS : has_shape 1 1 1 2 X) by (unfold has_shape; repeat (split || constructor)).
  assert (HF : all4 f32_finite X) by (repeat constructor).
  split; [exact HS|]. split; [exact HF|].
  destruct (@content_loss_nonneg 1 1 1 2 X X HS HS HF HF) as (r & Hr & _ & Hz);
    try lia.
  rewrite Hr, (Hz eq_refl). reflexivity.
Defined.

(** ** Style loss *)

Lemma in_concat_tabulate {A} (r c : nat) (f : nat -> nat -> A) (x : A) :
  In x (concat (rows (tabulate r c f))) <-> exists i j, i < r /\ j < c /\ x = f i j.
Proof.
  unfold tabulate. simpl. split.
  - intros Hx. apply in_concat in Hx as (l & Hl & Hx).
    apply in_map_iff in Hl as (i & <- & Hi). apply in_seq in Hi.
    apply in_map_iff in Hx as (j & <- & Hj). apply in_seq in Hj.
    exists i, j. repeat split; lia.
  - intros (i & j & Hi & Hj & ->). apply in_concat. eexists. split.
    + apply in_map_iff. exists i. split; [reflexivity|apply in_seq; lia].
    + apply in_map_iff. exists j. split; [reflexivity|apply in_seq; lia].
Qed.

Lemma concat_tabulate_nonempty {A} (r c : nat) (f : nat -> nat -> A) :
  1 <= r -> 1 <= c -> concat (rows (tabulate r c f)) <> [].
Proof.
  intros Hr Hc E.
  assert (Hin : In (f 0 0) (concat (rows (tabulate r c f)))).
  { apply in_concat_tabulate. exists 0, 0. repeat split; lia. }
  rewrite E in Hin. exact Hin.
Qed.

Lemma concat_tabulate_length {A} (r c : nat) (f : nat -> nat -> A) :
  length (concat (rows (tabulate r c f))) = r * c.
Proof.
  unfold tabulate. cbn [rows]. generalize 0 at 2.
  induction r as [|r IH]; intros k; [reflexivity|].
  cbn [seq map concat]. rewrite length_app, length_map, length_seq, IH.
  reflexivity.
Qed.

Lemma is_matrix_tabulate_entries {A} {EA : Elt A} (r c : nat) (M : matrix A) :
  is_matrix r c M -> M = tabulate r c (entry M).
Proof.
  destruct M as [nr nc rs]. intros (Hr & Hc & Hl & Hrows). simpl in *. subst nr nc.
  unfold tabulate. f_equal. unfold entry. simpl.
  rewrite (list_tabulate [] rs Hl) at 1.
  apply map_ext_in. intros i Hi. apply in_seq in Hi.
  apply list_tabulate. rewrite Forall_forall in Hrows.
  apply Hrows, nth_In. lia.
Qed.

Lemma msub_tabulate {A} {EA : Elt A} (r c : nat) (f g : nat -> nat -> A) :
  msub (tabulate r c f) (tabulate r c g) =
  Ok (tabulate r c (fun i j => tsub (f i j) (g i j))).
Proof.
  unfold msub. simpl. rewrite !Nat.eqb_refl. simpl.
  assert (E : zip_exact (zip_exact (fun x y => Ok (tsub x y)))
                (map (fun i => map (fun j => f i j) (seq 0 c)) (seq 0 r))
                (map (fun i => map (fun j => g i j) (seq 0 c)) (seq 0 r)) =
              Ok (map (fun i => map (fun j => tsub (f i j) (g i j)) (seq 0 c)) (seq 0 r))).
  { apply zip_exact_tabulate with (d1 := []) (d2 := []).
    - now rewrite length_map, length_seq.
    - now rewrite length_map, length_seq.
    - intros i Hi. rewrite !nth_map_seq by assumption.
      apply zip_exact_tabulate with (d1 := tlit 0%Qc) (d2 := tlit 0%Qc).
      + now rewrite length_map, length_seq.
      + now rewrite length_map, length_seq.
      + intros j Hj. now rewrite !nth_map_seq by assumption. }
  rewrite E. reflexivity.
Qed.

Lemma mmap_tabulate {A} {EA : Elt A} (h : A -> A) (r c : nat) (f : nat -> nat -> A) :
  mmap h (tabulate r c f) = tabulate r c (fun i j => h (f i j)).
Proof.
  unfold mmap, tabulate. simpl. f_equal. rewrite map_map.
  apply map_ext. intros i. now rewrite map_map.
Qed.

Lemma entry_Forall {A} {EA : Elt A} (P : A -> Prop) (r c : nat) (M : matrix A)
    (i j : nat) :
  is_matrix r c M -> Forall (Forall P) (rows M) -> i < r -> j < c ->
  P (entry M i j).
Proof.
  intros (_ & _ & Hl & Hrows) HF Hi Hj. unfold entry.
  rewrite Forall_forall in HF, Hrows.
  assert (Hin : In (nth i (rows M) []) (rows M)) by (apply nth_In; lia).
  specialize (HF _ Hin). rewrite Forall_forall in HF.
  apply HF, nth_In. rewrite (Hrows _ Hin). exact Hj.
Qed.

(** In binary32 the style loss of an activation against its own Gram
    matrix is [+0], provided the [(C, C)] Gram matrix has at least one
    entry, fewer than [2^24] of them, and its entries are numbers (no
    infinity, no NaN). *)
Theorem style_loss_own_gram (C : nat) (Y_hat : tensor4 float32)
    (gram_Y : matrix float32) :
  gram Y_hat = Ok gram_Y -> is_matrix C C gram_Y -> 1 <= C ->
  (Z.of_nat (C * C) < 2 ^ 24)%Z ->
  Forall (Forall f32_finite) (rows gram_Y) ->
  style_loss Y_hat gram_Y = Ok (S754_zero false).
Proof.
  intros EG HM HC Hcount FM.
  pose proof (is_matrix_tabulate_entries HM) as TG.
  unfold style_loss. rewrite EG. cbn [bind].
  replace (msub gram_Y (mmap tdetach gram_Y))
    with (msub (tabulate C C (entry gram_Y))
               (mmap tdetach (tabulate C C (entry gram_Y))))
    by (now rewrite <- TG).
  rewrite mmap_tabulate, msub_tabulate. cbn [bind].
  rewrite mmap_tabulate. unfold meanm.
  set (f := fun i j => square (tsub (entry gram_Y i j) (tdetach (entry gram_Y i j)))).
  rewrite (@f32_mean_zeros (concat (rows (tabulate C C f)))).
  - reflexivity.
  - now apply concat_tabulate_nonempty.
  - now rewrite concat_tabulate_length.
  - apply Forall_forall. intros x Hx.
    apply in_concat_tabulate in Hx as (i & j & Hi & Hj & ->).
    unfold f, square. cbn [tmul tsub tdetach Elt_float32].
    rewrite f32_sub_diag; [reflexivity|].
    exact (entry_Forall HM FM Hi Hj).
Qed.

Lemma style_loss_own_gram_witness :
  let Y := [[[[f32_lit 1%Qc; S754_zero false]]]] in
  exists G, gram Y = Ok G /\ is_matrix 1 1 G /\
            style_loss Y G = Ok (S754_zero false).
Proof.
  intros Y.
  destruct (gram Y) as [G|] eqn:EG; [|discriminate EG].
  assert (E : G = Matrix 1 1 [[S754_finite false 8388608 (-24)]]).
  { vm_compute in EG. now apply Ok_inj in EG. }
  assert (HM : is_matrix 1 1 G).
  { rewrite E. unfold is_matrix. repeat (split || constructor). }
  assert (FM : Forall (Forall f32_finite) (rows G)).
  { rewrite E. repeat constructor. }
  exists G. split; [reflexivity|]. split; [exact HM|].
  apply (@style_loss_own_gram 1 Y G EG HM (le_n 1)); [reflexivity|exact FM].
Defined.

(** ** Feature extraction by depth *)

Lemma py_in_In (i : Z) (l : list Z) : py_in i l = true <-> In i l.
Proof.
  unfold py_in. rewrite existsb_exists. split.
  - intros (x & Hx & E). apply Z.eqb_eq in E. now subst.
  - intros Hi. exists i. split; [exact Hi|apply Z.eqb_refl].
Qed.

Lemma py_in_same (l l' : list Z) :
  (forall d, In d l <-> In d l') -> forall i, py_in i l = py_in i l'.
Proof.
  intros Hl i. destruct (py_in i l) eqn:E, (py_in i l') eqn:E'; try reflexivity.
  - apply py_in_In, Hl, py_in_In in E. congruence.
  - apply py_in_In, Hl, py_in_In in E'. congruence.
Qed.

Lemma extract_loop_by_depth {A} (cl sl : list Z) (rest : list (layer A)) :
  forall (k : nat) (X0 : tensor4 A) (cs ss : list (tensor4 A)),
  extract_loop rest (Z.of_nat k) X0 cl sl cs ss =
  (cs ++ map (fun i => activation rest X0 (i - k))
             (filter (fun i => py_in (Z.of_nat i) cl) (seq k (length rest))),
   ss ++ map (fun i => activation rest X0 (i - k))
             (filter (fun i => py_in (Z.of_nat i) sl) (seq k (length rest)))).
Proof.
  induction rest as [|f rest IH]; intros k X0 cs ss.
  - simpl. now rewrite !app_nil_r.
  - cbn [extract_loop length seq filter].
    replace (Z.of_nat k + 1)%Z with (Z.of_nat (S k)) by lia.
    rewrite IH.
    assert (Hact : forall l, map (fun i => activation rest (f X0) (i - S k))
                                 (filter (fun i => py_in (Z.of_nat i) l)
                                         (seq (S k) (length rest)))
                           = map (fun i => activation (f :: rest) X0 (i - k))
                                 (filter (fun i => py_in (Z.of_nat i) l)
                                         (seq (S k) (length rest)))).
    { intros l. apply map_ext_in. intros i Hi.
      apply filter_In in Hi as [Hi _]. apply in_seq in Hi.
      replace (i - k) with (S (i - S k)) by lia. reflexivity. }
    rewrite !Hact.
    assert (Hk : activation (f :: rest) X0 (k - k) = f X0).
    { rewrite Nat.sub_diag. reflexivity. }
    f_equal.
    + destruct (py_in (Z.of_nat k) cl); [|reflexivity].
      cbn [map]. rewrite Hk, <- app_assoc. reflexivity.
    + destruct (py_in (Z.of_nat k) sl); [|reflexivity].
      cbn [map]. rewrite Hk, <- app_assoc. reflexivity.
Qed.

Lemma extract_features_table {A} (net : list (layer A)) (X : tensor4 A)
    (content_layers_ style_layers_ : list Z) :
  extract_features net X content_layers_ style_layers_ =
  (map (activation net X) (requested content_layers_ (length net)),
   map (activation net X) (requested style_layers_ (length net))).
Proof.
  unfold extract_features, requested.
  change 0%Z with (Z.of_nat 0).
  rewrite (extract_loop_by_depth content_layers_ style_layers_ net 0 X [] []).
  cbn [app]. f_equal; apply map_ext; intros i; now rewrite Nat.sub_0_r.
Qed.

(** The layer lists are used as sets: two content lists with the same
    members and two style lists with the same members give the same
    activations, whatever their order and however often a depth is
    repeated. *)
Theorem extract_features_layer_sets {A} (net : list (layer A)) (X : tensor4 A)
    (cl cl' sl sl' : list Z) :
  (forall d, In d cl <-> In d cl') -> (forall d, In d sl <-> In d sl') ->
  extract_features net X cl sl = extract_features net X cl' sl'.
Proof.
  intros Hc Hs. rewrite !extract_features_table. unfold requested.
  f_equal; f_equal; apply filter_ext; intros i; now apply py_in_same.
Qed.

Lemma extract_features_layer_sets_witness :
  let net : list (layer scalar) :=
    [map4 (fun x => sadd x (Fin 1%Qc)); map4 (fun x => smul x (Fin (Qc_of_Z 2)))] in
  let X := [[[[Fin 1%Qc]]]] in
  extract_features net X [1; 0; 1]%Z [0; 0]%Z = extract_features net X [0; 1]%Z [0]%Z /\
  extract_features net X [0; 1]%Z [0]%Z
  = ([[[[[Fin (Qc_of_Z 2)]]]]; [[[[Fin (Qc_of_Z 4)]]]]], [[[[[Fin (Qc_of_Z 2)]]]]]).
Proof.
  intros net X. split.
  - apply (extract_features_layer_sets net X [1; 0; 1]%Z [0; 1]%Z [0; 0]%Z [0]%Z).
    + intros d. simpl. tauto.
    + intros d. simpl. tauto.
  - vm_compute. reflexivity.
Defined.

Lemma requested_NoDup (layers : list Z) (n : nat) : NoDup (requested layers n).
Proof. apply NoDup_filter, seq_NoDup. Qed.

Lemma requested_In (layers : list Z) (n i : nat) :
  In i (requested layers n) <-> i < n /\ In (Z.of_nat i) layers.
Proof.
  unfold requested. rewrite filter_In, in_seq, py_in_In. intuition lia.
Qed.

Lemma NoDup_map_of_nat (l : list nat) : NoDup l -> NoDup (map Z.of_nat l).
Proof.
  induction 1 as [|a l Ha _ IH]; simpl; constructor; [|exact IH].
  rewrite in_map_iff. intros (b & E & Hb). apply Nat2Z.inj in E. now subst.
Qed.

Lemma requested_length (layers : list Z) (n : nat) :
  NoDup layers -> (forall d, In d layers -> (0 <= d < Z.of_nat n)%Z) ->
  length (requested layers n) = length layers.
Proof.
  intros Hnd Hr.
  rewrite <- (length_map Z.of_nat). apply Permutation_length, NoDup_Permutation.
  - apply NoDup_map_of_nat, requested_NoDup.
  - exact Hnd.
  - intros d. rewrite in_map_iff. split.
    + intros (i & <- & Hi). now apply requested_In in Hi.
    + intros Hd. exists (Z.to_nat d). pose proof (Hr d Hd). split; [lia|].
      apply requested_In. split; [lia|]. now rewrite Z2Nat.id by lia.
Qed.

(** On the truncated network, layer lists without repetitions and without
    negative depths get one activation per entry: the content and the style
    activations are as many as the depths asked for. *)
Theorem extract_features_one_per_layer {A} (features : list (layer A))
    (content_layers_ style_layers_ : list Z) (net : list (layer A)) (X : tensor4 A) :
  Incomplete_CNN features content_layers_ style_layers_ = Ok net ->
  NoDup content_layers_ -> NoDup style_layers_ ->
  (forall d, In d (content_layers_ ++ style_layers_) -> (0 <= d)%Z) ->
  length (fst (extract_features net X content_layers_ style_layers_))
    = length content_layers_ /\
  length (snd (extract_features net X content_layers_ style_layers_))
    = length style_layers_.
Proof.
  intros E Hc Hs Hpos. rewrite extract_features_table. cbn [fst snd].
  rewrite !length_map. split; apply requested_length; try assumption.
  - intros d Hd. split; [apply Hpos; apply in_or_app; now left|].
    eapply Incomplete_CNN_covers; [exact E|]. apply in_or_app. now left.
  - intros d Hd. split; [apply Hpos; apply in_or_app; now right|].
    eapply Incomplete_CNN_covers; [exact E|]. apply in_or_app. now right.
Qed.

Lemma extract_features_one_per_layer_witness :
  let features : list (layer scalar) :=
    [map4 (fun x => sadd x (Fin 1%Qc)); map4 (fun x => smul x (Fin (Qc_of_Z 2)));
     map4 sneg] in
  let X := [[[[Fin 1%Qc]]]] in
  Incomplete_CNN features [1]%Z [0; 1]%Z = Ok (firstn 2 features) /\
  length (fst (extract_features (firstn 2 features) X [1]%Z [0; 1]%Z)) = 1 /\
  length (snd (extract_features (firstn 2 features) X [1]%Z [0; 1]%Z)) = 2.
Proof.
  intros features X.
  assert (E : Incomplete_CNN features [1]%Z [0; 1]%Z = Ok (firstn 2 features))
    by reflexivity.
  split; [exact E|].
  apply (@extract_features_one_per_layer _ features [1]%Z [0; 1]%Z (firstn 2 features) X E).
  - repeat constructor; simpl; intuition discriminate.
  - repeat constructor; simpl; intuition discriminate.
  - intros d Hd. simpl in Hd. intuition lia.
Defined.

(** ** The truncated network is a prefix of the pretrained one *)

Lemma mapM_app {B1 B2} (f : B1 -> pyresult B2) (l1 l2 : list B1) (r1 r2 : list B2) :
  mapM f l1 = Ok r1 -> mapM f l2 = Ok r2 -> mapM f (l1 ++ l2) = Ok (r1 ++ r2).
Proof.
  revert r1; induction l1 as [|a l1 IH]; intros r1 E1 E2; simpl in *.
  - apply Ok_inj in E1. now subst.
  - destruct (f a) as [b|]; [|discriminate]. cbn [bind] in *.
    destruct (mapM f l1) as [bs|]; [|discriminate]. cbn [bind] in *.
    apply Ok_inj in E1. subst r1. now rewrite (IH bs eq_refl E2).
Qed.

Lemma firstn_S_nth_error {B} (l : list B) (k : nat) (x : B) :
  nth_error l k = Some x -> firstn (S k) l = firstn k l ++ [x].
Proof.
  revert k; induction l as [|a l IH]; intros [|k] E; simpl in E; try discriminate.
  - now injection E as ->.
  - cbn [firstn app]. f_equal. now apply IH.
Qed.

Lemma sequential_getitem_nth {A} (features : list (layer A)) (i : nat) (f : layer A) :
  nth_error features i = Some f -> sequential_getitem features (Z.of_nat i) = Ok f.
Proof.
  intros E. assert (Hi : i < length features) by (apply nth_error_Some; congruence).
  unfold sequential_getitem.
  replace ((- Z.of_nat (length features) <=? Z.of_nat i)%Z) with true
    by (symmetry; apply Z.leb_le; lia).
  replace ((Z.of_nat i <? Z.of_nat (length features))%Z) with true
    by (symmetry; apply Z.ltb_lt; lia).
  replace ((Z.of_nat i <? 0)%Z) with false by (symmetry; apply Z.ltb_ge; lia).
  simpl. now rewrite Nat2Z.id, E.
Qed.

Lemma getitem_range_firstn {A} (features : list (layer A)) (k : nat) :
  k <= length features ->
  mapM (sequential_getitem features) (map Z.of_nat (seq 0 k)) = Ok (firstn k features).
Proof.
  induction k as [|k IH]; intros Hk; [reflexivity|].
  rewrite seq_S, map_app. cbn [plus map].
  destruct (nth_error features k) as [f|] eqn:E;
    [|apply nth_error_None in E; lia].
  rewrite (firstn_S_nth_error _ _ E).
  apply mapM_app; [apply IH; lia|].
  simpl. now rewrite (sequential_getitem_nth _ _ E).
Qed.

(** When the deepest requested layer [m] is a layer of the pretrained
    network, the truncated network is the pretrained network's layers
    [0 .. m], in order, and nothing else; when all requested depths are
    negative ([m < 0]) it has no layer at all. *)
Theorem Incomplete_CNN_prefix {A} (features : list (layer A))
    (content_layers_ style_layers_ : list Z) (m : Z) :
  py_max (content_layers_ ++ style_layers_) = Ok m ->
  (m < Z.of_nat (length features))%Z ->
  Incomplete_CNN features content_layers_ style_layers_
  = Ok (firstn (Z.to_nat (m + 1)) features).
Proof.
  intros Em Hm. unfold Incomplete_CNN. rewrite Em. cbn [bind].
  unfold py_range. apply getitem_range_firstn. lia.
Qed.

Lemma Incomplete_CNN_prefix_witness :
  let features : list (layer scalar) :=
    [map4 (fun x => sadd x (Fin 1%Qc)); map4 (fun x => smul x (Fin (Qc_of_Z 2)));
     map4 sneg] in
  py_max ([1] ++ [0; 1])%Z = Ok 1%Z /\
  Incomplete_CNN features [1]%Z [0; 1]%Z = Ok (firstn 2 features) /\
  Incomplete_CNN features [-1]%Z [-2]%Z = Ok [].
Proof.
  intros features. split; [reflexivity|]. split.
  - apply (Incomplete_CNN_prefix features [1]%Z [0; 1]%Z (m:=1%Z)); [reflexivity|].
    simpl. lia.
  - apply (Incomplete_CNN_prefix features [-1]%Z [-2]%Z (m:=(-1)%Z)); [reflexivity|].
    simpl. lia.
Defined.

(** ** Pairing of activations and references *)

Lemma combine_firstn_both {B1 B2} (l : list B1) (l' : list B2) :
  combine l l' = combine (firstn (length l') l) (firstn (length l) l').
Proof.
  revert l'; induction l as [|a l IH]; intros [|b l']; simpl; try reflexivity.
  f_equal. apply IH.
Qed.

(** [compute_loss] pairs activations with references by [zip]: in both
    files, what either list has beyond the length of the other is dropped
    without an error, contents and styles alike. *)
Theorem compute_loss_pairs_only {A} {EA : Elt A} (X : tensor4 A)
    (contents_Y_hat styles_Y_hat contents_Y_ : list (tensor4 A))
    (styles_Y_gram : list (matrix A)) :
  Gatys.compute_loss X contents_Y_hat styles_Y_hat contents_Y_ styles_Y_gram
  = Gatys.compute_loss X (firstn (length contents_Y_) contents_Y_hat)
                         (firstn (length styles_Y_gram) styles_Y_hat)
                         (firstn (length contents_Y_hat) contents_Y_)
                         (firstn (length styles_Y_hat) styles_Y_gram) /\
  Main.compute_loss X contents_Y_hat styles_Y_hat contents_Y_ styles_Y_gram
  = Main.compute_loss X (firstn (length contents_Y_) contents_Y_hat)
                        (firstn (length styles_Y_gram) styles_Y_hat)
                        (firstn (length contents_Y_hat) contents_Y_)
                        (firstn (length styles_Y_hat) styles_Y_gram).
Proof.
  unfold Gatys.compute_loss, Main.compute_loss.
  rewrite <- (combine_firstn_both contents_Y_hat contents_Y_).
  rewrite <- (combine_firstn_both styles_Y_hat styles_Y_gram).
  split; reflexivity.
Qed.

(** ** The total is a tensor *)

Lemma py_add_tensor_r {A} {EA : Elt A} (p : pynum A) (x : A) :
  exists y, py_add p (PyTensor x) = PyTensor y.
Proof. destruct p; simpl; eauto. Qed.

(** Whatever the per-layer lists hold, empty lists included, the total
    that [compute_loss] returns is a tensor in both files, never a plain
    Python number: the total-variation term is added last and is a tensor.
    So [backward] and [item] always find their object, and the loss
    evaluation of the training loops passes on it. *)
Theorem total_is_a_tensor {A} {EA : Elt A} (X : tensor4 A)
    (contents_Y_hat styles_Y_hat contents_Y_ : list (tensor4 A))
    (styles_Y_gram : list (matrix A)) (contents_l styles_l : list A) (tv_l : A)
    (l_ : pynum A) :
  (Gatys.compute_loss X contents_Y_hat styles_Y_hat contents_Y_ styles_Y_gram
     = Ok (contents_l, styles_l, tv_l, l_) \/
   Main.compute_loss X contents_Y_hat styles_Y_hat contents_Y_ styles_Y_gram
     = Ok (contents_l, styles_l, tv_l, l_)) ->
  exists x, l_ = PyTensor x /\ as_tensor l_ = Ok x.
Proof.
  intros [E|E].
  - unfold Gatys.compute_loss in E.
    destruct (mapM _ (combine contents_Y_hat contents_Y_)) as [cl|]; [|discriminate].
    cbn [bind] in E.
    destruct (mapM _ (combine styles_Y_hat styles_Y_gram)) as [sl|]; [|discriminate].
    cbn [bind] in E.
    destruct (tv_loss X) as [tv|]; [|discriminate]. cbn [bind] in E.
    destruct (Gatys.style_term sl) as [s|]; [|discriminate]. cbn [bind] in E.
    apply Ok_inj in E.
    destruct (py_add_tensor_r (py_add s (py_sum cl)) (Gatys.weighted Gatys.TV_WEIGHT tv))
      as [y Hy].
    rewrite Hy in E. exists y. injection E as _ _ _ <-. split; reflexivity.
  - unfold Main.compute_loss in E.
    destruct (mapM _ (combine contents_Y_hat contents_Y_)) as [cl|]; [|discriminate].
    cbn [bind] in E.
    destruct (mapM _ (combine styles_Y_hat styles_Y_gram)) as [sl|]; [|discriminate].
    cbn [bind] in E.
    destruct (tv_loss X) as [tv|]; [|discriminate]. cbn [bind] in E.
    destruct (Main.style_term sl) as [s|]; [|discriminate]. cbn [bind] in E.
    apply Ok_inj in E.
    change (py_sum [Main.weighted Main.tv_weight tv])
      with (PyTensor (tadd (tlit (Qc_of_Z 0)) (Main.weighted Main.tv_weight tv))) in E.
    destruct (py_add_tensor_r (py_add s (py_sum cl))
                (tadd (tlit (Qc_of_Z 0)) (Main.weighted Main.tv_weight tv))) as [y Hy].
    rewrite Hy in E. exists y. injection E as _ _ _ <-. split; reflexivity.
Qed.

Lemma total_is_a_tensor_witness :
  let X := [[[[Fin 1%Qc; Fin 0%Qc]; [Fin 0%Qc; Fin 1%Qc]]]] in
  Main.compute_loss X [] [] [] []
    = Ok ([], [], Fin 0%Qc, PyTensor (Fin 0%Qc)) /\
  exists x, PyTensor (Fin 0%Qc) = PyTensor x /\ as_tensor (PyTensor (Fin 0%Qc)) = Ok x.
Proof.
  intros X.
  assert (E : Main.compute_loss X [] [] [] []
              = Ok ([], [], Fin 0%Qc, PyTensor (Fin 0%Qc))).
  { vm_compute. reflexivity. }
  split; [exact E|].
  apply (@total_is_a_tensor scalar _ X [] [] [] [] [] [] (Fin 0%Qc) (PyTensor (Fin 0%Qc))).
  right. exact E.
Defined.

(** ** The learning rate and the snapshots of a run *)

Lemma div_succ (d e : Z) :
  (0 < d)%Z -> (0 <= e)%Z ->
  (((e + 1) mod d = 0)%Z -> ((e + 1) / d = e / d + 1)%Z) /\
  (((e + 1) mod d <> 0)%Z -> ((e + 1) / d = e / d)%Z).
Proof.
  intros Hd He.
  pose proof (Z.div_mod e d ltac:(lia)) as E1.
  pose proof (Z.div_mod (e + 1) d ltac:(lia)) as E2.
  pose proof (Z.mod_pos_bound e d Hd) as B1.
  pose proof (Z.mod_pos_bound (e + 1) d Hd) as B2.
  split; intros Hm; nia.
Qed.

Lemma to_nat_div_max (n d : Z) :
  (0 < d)%Z -> Z.to_nat (Z.max 0 n / d) = Z.to_nat (n / d).
Proof.
  intros Hd. destruct (Z.max_spec 0 n) as [[Hn ->]|[Hn ->]]; [reflexivity|].
  rewrite Z.div_0_l by lia.
  destruct (Z.eq_dec n 0) as [->|Hn0]; [now rewrite Z.div_0_l by lia|].
  assert (n / d < 0)%Z by (apply Z.div_lt_upper_bound; lia). lia.
Qed.

Section ScheduleFacts.
Context {A : Type} {EA : Elt A}.
Variable T : torch_optim A.
Variable Resize : nat * nat -> tensor3 A -> tensor3 A.
Variable Content_Size : nat * nat.
Variable net : list (layer A).
Variables content_layers style_layers : list Z.

Lemma Gatys_epoch_body_schedule (st st' : run T) (epoch : Z) :
  Gatys.epoch_body Resize Content_Size net content_layers style_layers st epoch = Ok st' ->
  scheduler_step (scheduler st) (lr_ st) = Ok (scheduler st', lr_ st') /\
  image_steps (writer st')
  = image_steps (writer st) ++
    (if ((epoch + 1) mod 20 =? 0)%Z then [((epoch + 1) / 20)%Z] else []).
Proof.
  unfold Gatys.epoch_body. intros E.
  match type of E with (r <- ?m ;; _) = _ => destruct m as [[[tr X'] ll]|] end;
    [|discriminate]. cbn [bind] in E.
  match type of E with (w2 <- ?m ;; _) = _ => destruct m as [w2|] eqn:Ew end;
    [|discriminate]. cbn [bind] in E.
  destruct (scheduler_step (scheduler st) (lr_ st)) as [[sch' lr']|]; [|discriminate].
  cbn [bind] in E. apply Ok_inj in E. subst st'. simpl.
  split; [reflexivity|].
  unfold image_steps in *.
  destruct ((epoch + 1) mod 20 =? 0)%Z.
  - destruct (Gatys.snapshot Resize Content_Size X') as [img|]; [|discriminate].
    cbn [bind] in Ew. apply Ok_inj in Ew. subst w2.
    rewrite !flat_map_app. simpl. now rewrite app_nil_r.
  - apply Ok_inj in Ew. subst w2. rewrite flat_map_app. reflexivity.
Qed.

Lemma Main_epoch_body_schedule (st st' : run T) (epoch : Z) :
  Main.epoch_body net content_layers style_layers st epoch = Ok st' ->
  scheduler_step (scheduler st) (lr_ st) = Ok (scheduler st', lr_ st') /\
  image_steps (writer st') = image_steps (writer st).
Proof.
  unfold Main.epoch_body. intros E.
  match type of E with (ll <- ?m ;; _) = _ => destruct m as [ll|] end;
    [|discriminate]. cbn [bind] in E.
  match type of E with (r <- ?m ;; _) = _ => destruct m as [r|] end;
    [|discriminate]. cbn [bind] in E.
  destruct (scheduler_step (scheduler st) (lr_ st)) as [[sch' lr']|]; [|discriminate].
  cbn [bind] in E. apply Ok_inj in E. subst st'. simpl.
  split; [reflexivity|].
  unfold image_steps. rewrite flat_map_app. simpl. now rewrite app_nil_r.
Qed.

End ScheduleFacts.

Lemma snapshot_steps_range (k : nat) :
  flat_map (fun epoch => if ((epoch + 1) mod 20 =? 0)%Z
                         then [((epoch + 1) / 20)%Z] else [])
           (map Z.of_nat (seq 0 k))
  = map (fun i => Z.of_nat (S i)) (seq 0 (Z.to_nat (Z.of_nat k / 20))).
Proof.
  induction k as [|k IH]; [reflexivity|].
  rewrite seq_S, map_app, flat_map_app, IH. cbn [plus map flat_map].
  rewrite app_nil_r.
  destruct (@div_succ 20 (Z.of_nat k) ltac:(lia) ltac:(lia)) as [D1 D2].
  pose proof (Z.div_pos (Z.of_nat k) 20 ltac:(lia) ltac:(lia)) as Hq.
  replace (Z.of_nat (S k)) with (Z.of_nat k + 1)%Z by lia.
  destruct (Z.eqb_spec ((Z.of_nat k + 1) mod 20) 0) as [Hm|Hm].
  - rewrite (D1 Hm), Z2Nat.inj_add by lia.
    change (Z.to_nat 1) with 1. rewrite Nat.add_1_r, seq_S, map_app.
    cbn [plus map]. do 2 f_equal. lia.
  - rewrite (D2 Hm). now rewrite app_nil_r.
Qed.

Lemma Gatys_epochs_images {A : Type} {EA : Elt A} (T : torch_optim A)
    (Resize : nat * nat -> tensor3 A -> tensor3 A) (Content_Size : nat * nat)
    (net : list (layer A)) (content_layers style_layers : list Z)
    (l : list Z) (st st' : run T) :
  Gatys.epochs Resize Content_Size net content_layers style_layers l st = Ok st' ->
  image_steps (writer st')
  = image_steps (writer st) ++
    flat_map (fun epoch => if ((epoch + 1) mod 20 =? 0)%Z
                           then [((epoch + 1) / 20)%Z] else []) l.
Proof.
  revert st; induction l as [|e l IH]; intros st E; simpl in E.
  - apply Ok_inj in E. subst st'. simpl. now rewrite app_nil_r.
  - destruct (Gatys.epoch_body Resize Content_Size net content_layers style_layers st e)
      as [st1|] eqn:E1; [|discriminate]. cbn [bind] in E.
    apply Gatys_epoch_body_schedule in E1 as [_ W1].
    rewrite (IH st1 E), W1, <- app_assoc. reflexivity.
Qed.

Lemma Main_epochs_images {A : Type} {EA : Elt A} (T : torch_optim A)
    (net : list (layer A)) (content_layers style_layers : list Z)
    (l : list Z) (st st' : run T) :
  Main.epochs net content_layers style_layers l st = Ok st' ->
  image_steps (writer st') = image_steps (writer st).
Proof.
  revert st; induction l as [|e l IH]; intros st E; simpl in E.
  - apply Ok_inj in E. now subst st'.
  - destruct (Main.epoch_body net content_layers style_layers st e) as [st1|] eqn:E1;
      [|discriminate]. cbn [bind] in E.
    apply Main_epoch_body_schedule in E1 as [_ W1].
    now rewrite (IH st1 E), W1.
Qed.

(** A run of Gatys.py's [train] that returns has written one image every
    20 epochs, under the steps [1, 2, ..., num_epochs // 20] in this order
    (none for fewer than 20 epochs); a run of main.py's [train] has written
    no image at all. *)
Theorem snapshots_every_twenty_epochs {A : Type} {EA : Elt A} (T : torch_optim A)
    (rand : nat * nat * nat * nat -> tensor4 A)
    (Resize : nat * nat -> tensor3 A -> tensor3 A) (Content_Size : nat * nat)
    (preprocessed_content : tensor4 A)
    (net : list (layer A)) (content_layers style_layers : list Z)
    (X : tensor4 A) (contents_Y_ styles_Y_ : list (tensor4 A))
    (lr : Qc) (num_epochs lr_decay_epoch : Z) (st : run T) :
  (Gatys.train_run T rand Resize Content_Size net content_layers style_layers
                   X contents_Y_ styles_Y_ lr num_epochs lr_decay_epoch = Ok st ->
   image_steps (writer st)
   = map (fun i => Z.of_nat (S i)) (seq 0 (Z.to_nat (num_epochs / 20)))) /\
  (Main.train_run T preprocessed_content net content_layers style_layers
                  X contents_Y_ styles_Y_ lr num_epochs lr_decay_epoch = Ok st ->
   image_steps (writer st) = []).
Proof.
  split; intros E.
  - unfold Gatys.train_run in E.
    destruct (Gatys.get_inits T rand X lr styles_Y_) as [[[X0 grams] tr]|]; [|discriminate].
    cbn [bind] in E.
    apply Gatys_epochs_images in E. cbn [writer] in E.
    rewrite E. cbn [image_steps flat_map app]. unfold py_range.
    rewrite snapshot_steps_range. do 2 f_equal.
    rewrite <- (to_nat_div_max num_epochs (d:=20)) by lia. f_equal. f_equal. lia.
  - unfold Main.train_run in E.
    destruct (Main.get_inits T preprocessed_content X lr styles_Y_) as [[[X0 grams] tr]|];
      [|discriminate].
    cbn [bind] in E.
    apply Main_epochs_images in E. exact E.
Qed.

Lemma snapshots_every_twenty_epochs_witness :
  let X := [[[[Fin 1%Qc; Fin 0%Qc]; [Fin 0%Qc; Fin 1%Qc]]]] in
  exists st,
    Gatys.train_run still_optim rand_half (fun _ t => t) (0, 0) [fun X => X] [0%Z] [0%Z] X [X] [X]
                    (Q2Qc (1 # 2)) 45 50 = Ok st /\
    image_steps (writer st) = [1; 2]%Z.
Proof.
  intros X.
  destruct (Gatys.train_run still_optim rand_half (fun _ t => t) (0, 0) [fun X => X] [0%Z] [0%Z] X [X] [X]
                            (Q2Qc (1 # 2)) 45 50) as [st|] eqn:E;
    [|vm_compute in E; discriminate].
  exists st. split; [reflexivity|].
  apply (proj1 (@snapshots_every_twenty_epochs scalar _ still_optim rand_half
                  (fun _ t => t) (0, 0) X [fun X => X] [0%Z] [0%Z] X [X] [X] (Q2Qc (1 # 2)) 45 50 st) E).
Defined.

(** ** main.py without epochs *)

Lemma Main_train_run_no_epochs (T : torch_optim scalar)
    (preprocessed_content : tensor4 scalar)
    (net : list (layer scalar)) (content_layers style_layers : list Z)
    (X : tensor4 scalar) (contents_Y_ styles_Y_ : list (tensor4 scalar))
    (lr : Qc) (num_epochs lr_decay_epoch : Z) (N C H W : nat)
    (grams : list (matrix scalar)) :
  (num_epochs <= 0)%Z -> (0 <= lr)%Qc ->
  has_shape N C H W X ->
  has_shape N C H W preprocessed_content ->
  mapM gram styles_Y_ = Ok grams ->
  Main.train_run T preprocessed_content net content_layers style_layers
                 X contents_Y_ styles_Y_ lr num_epochs lr_decay_epoch
  = Ok (MkRun X (Adam (Adam_new T)) lr (MkStepLR lr_decay_epoch (Q2Qc (8 # 10)) 0)
              [] contents_Y_ grams).
Proof.
  intros Hn Hlr HX HP Hg. unfold Main.train_run, Main.get_inits.
  rewrite (map4_id tdetach X) by reflexivity.
  rewrite (copy_same_shape NaN HP HX). cbn [bind].
  rewrite (is_neg_false Hlr). cbn [bind]. rewrite Hg. cbn [bind]. rewrite (map4_id tparam X) by reflexivity.
  unfold py_range. replace (Z.to_nat num_epochs) with 0 by lia. reflexivity.
Qed.

Lemma grams_exist (styles_Y_ : list (tensor4 scalar)) :
  Forall (fun Y => exists C' H' W', 1 <= C' /\ has_shape 1 C' H' W' Y) styles_Y_ ->
  exists grams, mapM gram styles_Y_ = Ok grams.
Proof.
  intros HS. apply mapM_total.
  eapply Forall_impl; [|exact HS]. intros Y (C' & H' & W' & HC & HY).
  eexists. apply (gram_is_gram_spec HY HC).
Qed.

(** With a step count of zero or below and a learning rate that Adam
    accepts (not negative), [train] of main.py returns the image [X] it was
    given: the parameter of [SynthesizedImage] is the preprocessed content
    image, of the shape of [X], [copy_] overwrites all of it with [X], and
    [range(num_epochs)] is empty.  The style activations have shape
    [(1, C, H, W)] with at least one channel, so that their Gram matrices
    exist. *)
Theorem Main_train_without_epochs (T : torch_optim scalar)
    (preprocessed_content : tensor4 scalar)
    (net : list (layer scalar)) (content_layers style_layers : list Z)
    (X : tensor4 scalar) (contents_Y_ styles_Y_ : list (tensor4 scalar))
    (lr : Qc) (num_epochs lr_decay_epoch : Z) (N C H W : nat) :
  (num_epochs <= 0)%Z -> (0 <= lr)%Qc ->
  has_shape N C H W X ->
  has_shape N C H W preprocessed_content ->
  Forall (fun Y => exists C' H' W', 1 <= C' /\ has_shape 1 C' H' W' Y) styles_Y_ ->
  Main.train T preprocessed_content net content_layers style_layers
             X contents_Y_ styles_Y_ lr num_epochs lr_decay_epoch = Ok X /\
  exists styles_Y_gram,
    Main.train_run T preprocessed_content net content_layers style_layers
                   X contents_Y_ styles_Y_ lr num_epochs lr_decay_epoch
    = Ok (MkRun X (Adam (Adam_new T)) lr (MkStepLR lr_decay_epoch (Q2Qc (8 # 10)) 0)
                [] contents_Y_ styles_Y_gram) /\
    mapM gram styles_Y_ = Ok styles_Y_gram.
Proof.
  intros Hn Hlr HX HP HS.
  destruct (grams_exist HS) as [grams Hg].
  pose proof (@Main_train_run_no_epochs T preprocessed_content net content_layers
                style_layers X contents_Y_ styles_Y_ lr num_epochs lr_decay_epoch
                N C H W grams Hn Hlr HX HP Hg) as HR.
  split.
  - unfold Main.train. rewrite HR. reflexivity.
  - exists grams. split; [exact HR|exact Hg].
Qed.

Lemma Main_train_without_epochs_witness :
  let X := [[[[Fin 1%Qc; Fin 0%Qc]; [Fin 0%Qc; Fin 1%Qc]]]] in
  let P := [[[[Fin 0%Qc; Fin 0%Qc]; [Fin 0%Qc; Fin 0%Qc]]]] in
  has_shape 1 1 2 2 X /\ has_shape 1 1 2 2 P /\
  Main.train still_optim P [fun X => X] [0%Z] [0%Z] X [X] [X]
             (Q2Qc (1 # 2)) (-3) 50 = Ok X.
Proof.
  intros X P.
  assert (HS : has_shape 1 1 2 2 X) by (unfold has_shape; repeat (split || constructor)).
  assert (HP : has_shape 1 1 2 2 P) by (unfold has_shape; repeat (split || constructor)).
  split; [exact HS|]. split; [exact HP|].
  apply (@Main_train_without_epochs still_optim P [fun X => X] [0%Z] [0%Z] X
           [X] [X] (Q2Qc (1 # 2)) (-3) 50 1 1 2 2);
    [lia|vm_compute; discriminate|exact HS|exact HP|].
  constructor; [|constructor]. exists 1, 2, 2. split; [lia|exact HS].
Defined.

(** ** Images: what [postprocess] hands to [ToPILImage] *)

Lemma tab4_one (a b c : nat) (f : nat -> nat -> nat -> nat -> scalar) :
  tab4 1 a b c f = [tab3 a b c (f 0)].
Proof. reflexivity. Qed.

Lemma get3_tab3 (a b c : nat) (f : nat -> nat -> nat -> scalar) i j k :
  i < a -> j < b -> k < c -> get3 (tab3 a b c f) i j k = f i j k.
Proof.
  intros Hi Hj Hk. unfold get3, tab3. now rewrite !nth_map_seq by assumption.
Qed.

Lemma tab3_ext (a b c : nat) (f g : nat -> nat -> nat -> scalar) :
  (forall i j k, i < a -> j < b -> k < c -> f i j k = g i j k) ->
  tab3 a b c f = tab3 a b c g.
Proof.
  intros E. unfold tab3.
  apply map_ext_in; intros i Hi; apply in_seq in Hi.
  apply map_ext_in; intros j Hj; apply in_seq in Hj.
  apply map_ext_in; intros k Hk; apply in_seq in Hk.
  apply E; lia.
Qed.

Lemma map3_tab3 (g : scalar -> scalar) (a b c : nat) (f : nat -> nat -> nat -> scalar) :
  map (map (map g)) (tab3 a b c f) = tab3 a b c (fun i j k => g (f i j k)).
Proof.
  unfold tab3. now rewrite !map_map; repeat (apply map_ext; intro; rewrite !map_map).
Qed.

Lemma has_shape_tab3 (a b c : nat) (f : nat -> nat -> nat -> scalar) :
  has_shape 1 a b c [tab3 a b c f].
Proof. rewrite <- (tab4_one a b c (fun _ => f)). apply has_shape_of_tab4. Qed.

Lemma all4_tab3 (P : scalar -> Prop) (a b c : nat) (f : nat -> nat -> nat -> scalar) :
  (forall i j k, i < a -> j < b -> k < c -> P (f i j k)) ->
  all4 P [tab3 a b c f].
Proof.
  intros HP. constructor; [|constructor]. unfold tab3.
  apply Forall_map, Forall_forall; intros i Hi; apply in_seq in Hi.
  apply Forall_map, Forall_forall; intros j Hj; apply in_seq in Hj.
  apply Forall_map, Forall_forall; intros k Hk; apply in_seq in Hk.
  apply HP; lia.
Qed.

Lemma is_neg_false_inv (q : Qc) : is_neg q = false -> (0 <= q)%Qc.
Proof.
  unfold is_neg. intros E. apply Qcge_alt. destruct (q ?= 0)%Qc; congruence.
Qed.

Lemma Qc_le_0_1 : (0 <= 1)%Qc.
Proof. unfold Qcle. simpl. unfold Qle. simpl. lia. Qed.

Lemma Qc_sub_0 (q : Qc) : (q - 0)%Qc = q.
Proof. ring. Qed.

Lemma sclamp_range (x : scalar) : x <> NaN -> unit_interval (sclamp 0%Qc 1%Qc x).
Proof.
  assert (D : forall r, (0 <= r)%Qc ->
              unit_interval (Fin (if is_neg (1 - r)%Qc then 1%Qc else r))).
  { intros r Hr. eexists. split; [reflexivity|].
    destruct (is_neg (1 - r)%Qc) eqn:E.
    - split; [apply Qc_le_0_1|apply Qcle_refl].
    - split; [exact Hr|]. apply is_neg_false_inv in E. now apply Qcle_minus_iff. }
  intros Hx. destruct x as [q|[|]|]; unfold sclamp.
  - apply D. rewrite Qc_sub_0. destruct (is_neg q) eqn:E.
    + apply Qcle_refl.
    + now apply is_neg_false_inv.
  - apply D, Qcle_refl.
  - eexists. split; [reflexivity|]. split; [apply Qc_le_0_1|apply Qcle_refl].
  - congruence.
Qed.

Lemma RGB_entries (i : nat) :
  i < 3 ->
  exists m s, nth i RGB_MEAN (Fin 0%Qc) = Fin m /\ nth i RGB_STD (Fin 0%Qc) = Fin s /\
              is_zero s = false /\ s <> 0%Qc.
Proof.
  intros Hi.
  assert (Z : forall s, is_zero s = false -> s <> 0%Qc).
  { intros s E ->. discriminate. }
  destruct i as [|[|[|i]]]; [| | |lia].
  - exists (Q2Qc (485 # 1000)), (Q2Qc (229 # 1000)).
    split; [reflexivity|]. split; [reflexivity|].
    split; [|apply Z]; vm_compute; reflexivity.
  - exists (Q2Qc (456 # 1000)), (Q2Qc (224 # 1000)).
    split; [reflexivity|]. split; [reflexivity|].
    split; [|apply Z]; vm_compute; reflexivity.
  - exists (Q2Qc (406 # 1000)), (Q2Qc (225 # 1000)).
    split; [reflexivity|]. split; [reflexivity|].
    split; [|apply Z]; vm_compute; reflexivity.
Qed.

Lemma broadcast_last_same (op : scalar -> scalar -> scalar) (t : tensor3 scalar)
    (v : list scalar) (a b c : nat) :
  dims t = (a, b, c) -> c = length v ->
  broadcast_last op t v
  = Ok (T3 (a, b, c) (tab3 a b c (fun i j k => op (get3 (data t) i j k) (nth k v (Fin 0%Qc))))).
Proof.
  intros Hd Hc. unfold broadcast_last. rewrite Hd, <- Hc, Nat.eqb_refl. reflexivity.
Qed.

Lemma broadcast_last_one (op : scalar -> scalar -> scalar) (t : tensor3 scalar)
    (v : list scalar) (a b : nat) :
  dims t = (a, b, 1) -> length v <> 1 ->
  broadcast_last op t v
  = Ok (T3 (a, b, length v)
           (tab3 a b (length v) (fun i j k => op (get3 (data t) i j 0) (nth k v (Fin 0%Qc))))).
Proof.
  intros Hd Hv. unfold broadcast_last. rewrite Hd.
  destruct (Nat.eqb_spec 1 (length v)) as [E|_]; [congruence|]. reflexivity.
Qed.

(** What [postprocess] does after [img[0]] (and [Resize]), on a tensor of 3
    channels or of 1: channel [i] of the result is [clamp(x * std[i] +
    mean[i], 0, 1)], the one channel being broadcast to three. *)
Lemma denormalize_table (PIL : Type) (ToPILImage : tensor3 scalar -> pyresult PIL)
    (t : tensor3 scalar) (a b c : nat) :
  dims t = (a, b, c) -> a = 3 \/ a = 1 ->
  (y <- broadcast_last smul (permute_1_2_0 t) RGB_STD ;;
   z <- broadcast_last sadd y RGB_MEAN ;;
   ToPILImage (permute_2_0_1 (clamp z 0%Qc 1%Qc)))%py
  = ToPILImage (T3 (3, b, c) (tab3 3 b c (fun i j k =>
      sclamp 0%Qc 1%Qc (sadd (smul (get3 (data t) (if Nat.eqb a 3 then i else 0) j k)
                                   (nth i RGB_STD (Fin 0%Qc)))
                             (nth i RGB_MEAN (Fin 0%Qc)))))).
Proof.
  intros Hd Ha. unfold permute_1_2_0. rewrite Hd.
  destruct Ha as [-> | ->].
  - rewrite (fun p Hp => @broadcast_last_same smul p RGB_STD b c 3 Hp eq_refl) by reflexivity.
    cbn [bind].
    rewrite (fun p Hp => @broadcast_last_same sadd p RGB_MEAN b c 3 Hp eq_refl) by reflexivity.
    cbn [bind].
    unfold clamp, permute_2_0_1. cbn [dims data].
    rewrite map3_tab3. do 2 f_equal. apply tab3_ext. intros i j k Hi Hj Hk.
    rewrite !get3_tab3 by lia. reflexivity.
  - rewrite (fun p Hp => @broadcast_last_one smul p RGB_STD b c Hp) by (reflexivity || (simpl; lia)).
    change (length RGB_STD) with 3. cbn [bind].
    rewrite (fun p Hp => @broadcast_last_same sadd p RGB_MEAN b c 3 Hp eq_refl) by reflexivity.
    cbn [bind].
    unfold clamp, permute_2_0_1. cbn [dims data].
    rewrite map3_tab3. do 2 f_equal. apply tab3_ext. intros i j k Hi Hj Hk.
    rewrite !get3_tab3 by lia. reflexivity.
Qed.

Lemma denormalized_entry (x : scalar) (i : nat) :
  i < 3 -> x <> NaN ->
  unit_interval (sclamp 0%Qc 1%Qc (sadd (smul x (nth i RGB_STD (Fin 0%Qc))) (nth i RGB_MEAN (Fin 0%Qc)))).
Proof.
  intros Hi Hx. destruct (RGB_entries Hi) as (m & s & -> & -> & Zs & _).
  apply sclamp_range. destruct x as [q|sg|]; [| |congruence]; simpl.
  - discriminate.
  - rewrite Zs. discriminate.
Qed.

Lemma denormalize_displayable (PIL : Type) (ToPILImage : tensor3 scalar -> pyresult PIL)
    (t : tensor3 scalar) (b c : nat) :
  presentable t b c ->
  exists t',
    (y <- broadcast_last smul (permute_1_2_0 t) RGB_STD ;;
     z <- broadcast_last sadd y RGB_MEAN ;;
     ToPILImage (permute_2_0_1 (clamp z 0%Qc 1%Qc)))%py = ToPILImage t' /\
    displayable t' b c.
Proof.
  intros ((a & Hd & Ha) & Hwf & Hn). unfold well_formed in Hwf. rewrite Hd in Hwf.
  eexists. split; [apply (denormalize_table ToPILImage t Hd Ha)|].
  split; [reflexivity|]. split.
  - unfold well_formed. cbn [dims data]. apply has_shape_tab3.
  - cbn [data]. apply all4_tab3. intros i j k Hi Hj Hk.
    apply denormalized_entry; [exact Hi|].
    change (get3 (data t) (if Nat.eqb a 3 then i else 0) j k)
      with (get4 (Fin 0%Qc) [data t] 0 (if Nat.eqb a 3 then i else 0) j k).
    apply (all4_get4 (Fin 0%Qc) Hwf Hn); try lia.
    destruct Ha as [-> | ->]; simpl; lia.
Qed.

(** [postprocess] hands [ToPILImage] a displayable image: when the first
    image of the batch (in Gatys.py: after [Resize]) is a well-formed tensor
    of 3 channels, or of 1, without NaN, the tensor that reaches
    [ToPILImage] has 3 channels, the same height and width, and entries from
    0 to 1, infinite entries included. *)
Theorem postprocess_output_range (PIL : Type) (ToPILImage : tensor3 scalar -> pyresult PIL)
    (Resize : nat * nat -> tensor3 scalar -> tensor3 scalar) (Content_Size : nat * nat)
    (X : tensor4 scalar) (t : tensor3 scalar) (b c : nat) :
  getitem_0 X = Ok t ->
  (presentable t b c ->
   exists t', MainImages.postprocess ToPILImage X = ToPILImage t' /\
              displayable t' b c) /\
  (presentable (Resize Content_Size t) b c ->
   exists t', GatysImages.postprocess ToPILImage Resize Content_Size X = ToPILImage t' /\
              displayable t' b c).
Proof.
  intros E. split; intros HP.
  - unfold MainImages.postprocess. rewrite E. cbn [bind].
    apply (denormalize_displayable ToPILImage HP).
  - unfold GatysImages.postprocess. rewrite E. cbn [bind].
    apply (denormalize_displayable ToPILImage HP).
Qed.

Lemma postprocess_output_range_witness :
  let X := [[[[Fin (- (1))%Qc; Inf false]]]] in
  let t := T3 (1, 1, 2) [[[Fin (- (1))%Qc; Inf false]]] in
  let ToPILImage := fun t : tensor3 scalar => Ok t in
  getitem_0 X = Ok t /\ presentable t 1 2 /\
  exists t', MainImages.postprocess ToPILImage X = Ok t' /\ displayable t' 1 2.
Proof.
  intros X t ToPILImage.
  assert (E : getitem_0 X = Ok t) by reflexivity.
  assert (HP : presentable t 1 2).
  { split; [exists 1; split; [reflexivity|now right]|]. split.
    - unfold well_formed, has_shape. simpl. repeat (split || constructor).
    - repeat constructor; discriminate. }
  split; [exact E|]. split; [exact HP|].
  apply (proj1 (@postprocess_output_range _ ToPILImage (fun _ u => u) (0, 0) X t 1 2 E) HP).
Defined.

(** ** Content loss and the order of its arguments *)

Lemma square_ssub_comm (x y : scalar) : square (ssub x y) = square (ssub y x).
Proof.
  unfold square. change (@tmul scalar _) with smul.
  destruct x as [a|[]|], y as [b|[]|]; simpl; try reflexivity.
  f_equal. ring.
Qed.

(** On plain numbers [content_loss] does not tell the activation from the
    reference: for two tensors of one shape, infinite and NaN entries
    included, [content_loss Y_hat Y = content_loss Y Y_hat]. *)
Theorem content_loss_symmetric (N C H W : nat) (Y_hat Y : tensor4 scalar) :
  has_shape N C H W Y_hat -> has_shape N C H W Y ->
  content_loss Y_hat Y = content_loss Y Y_hat.
Proof.
  intros H1 H2. unfold content_loss.
  rewrite (map4_id tdetach Y), (map4_id tdetach Y_hat) by reflexivity.
  rewrite (sub4_table NaN H1 H2), (sub4_table NaN H2 H1). cbn [bind].
  rewrite !map4_tab4. do 2 f_equal. apply tab4_ext. intros n c h w _ _ _ _.
  apply square_ssub_comm.
Qed.

Lemma content_loss_symmetric_witness :
  let A := [[[[Fin 1%Qc; Inf false]]]] in
  let B := [[[[Fin 0%Qc; Fin 1%Qc]]]] in
  has_shape 1 1 1 2 A /\ has_shape 1 1 1 2 B /\ content_loss A B = content_loss B A.
Proof.
  intros A B.
  assert (HA : has_shape 1 1 1 2 A) by (unfold has_shape; repeat (split || constructor)).
  assert (HB : has_shape 1 1 1 2 B) by (unfold has_shape; repeat (split || constructor)).
  split; [exact HA|]. split; [exact HB|].
  apply (content_loss_symmetric HA HB).
Defined.

(** ** A decay interval of zero *)

Lemma scheduler_step_needs_interval (sch : StepLR) (lr : Qc) (r : StepLR * Qc) :
  scheduler_step sch lr = Ok r -> step_size sch <> 0%Z.
Proof.
  unfold scheduler_step. intros E Hz. rewrite Hz in E. discriminate.
Qed.

Lemma py_range_cons (n : Z) :
  (1 <= n)%Z -> exists l, py_range n = 0%Z :: l.
Proof.
  intros Hn. unfold py_range. destruct (Z.to_nat n) as [|k] eqn:E; [lia|].
  simpl. eauto.
Qed.

(** With [lr_decay_epoch = 0] and at least one epoch, [train] never
    returns an image, in neither file: the first call of [scheduler.step()]
    divides by the interval. *)
Theorem zero_decay_interval_stops_training {A : Type} {EA : Elt A} (T : torch_optim A)
    (rand : nat * nat * nat * nat -> tensor4 A)
    (Resize : nat * nat -> tensor3 A -> tensor3 A) (Content_Size : nat * nat)
    (preprocessed_content : tensor4 A)
    (net : list (layer A)) (content_layers style_layers : list Z)
    (X : tensor4 A) (contents_Y_ styles_Y_ : list (tensor4 A))
    (lr : Qc) (num_epochs : Z) :
  (1 <= num_epochs)%Z ->
  (exists e, Gatys.train T rand Resize Content_Size net content_layers style_layers
                         X contents_Y_ styles_Y_ lr num_epochs 0 = Raise e) /\
  (exists e, Main.train T preprocessed_content net content_layers style_layers
                        X contents_Y_ styles_Y_ lr num_epochs 0 = Raise e).
Proof.
  intros Hn. destruct (py_range_cons Hn) as [l El]. split.
  - unfold Gatys.train, Gatys.train_run. rewrite El.
    destruct (Gatys.get_inits T rand X lr styles_Y_) as [[[X0 grams] tr]|]; [|simpl; eauto].
    cbn [bind Gatys.epochs].
    match goal with
    | |- context [Gatys.epoch_body ?r ?cs ?n ?c ?s ?st ?e] =>
        destruct (Gatys.epoch_body r cs n c s st e) as [st1|] eqn:E1; [|simpl; eauto]
    end.
    apply Gatys_epoch_body_schedule in E1 as [E1 _].
    apply scheduler_step_needs_interval in E1. exfalso. apply E1. reflexivity.
  - unfold Main.train, Main.train_run. rewrite El.
    destruct (Main.get_inits T preprocessed_content X lr styles_Y_) as [[[X0 grams] tr]|];
      [|simpl; eauto].
    cbn [bind Main.epochs].
    match goal with
    | |- context [Main.epoch_body ?n ?c ?s ?st ?e] =>
        destruct (Main.epoch_body n c s st e) as [st1|] eqn:E1; [|simpl; eauto]
    end.
    apply Main_epoch_body_schedule in E1 as [E1 _].
    apply scheduler_step_needs_interval in E1. exfalso. apply E1. reflexivity.
Qed.

Lemma zero_decay_interval_stops_training_witness :
  let X := [[[[Fin 1%Qc; Fin 0%Qc]; [Fin 0%Qc; Fin 1%Qc]]]] in
  (exists e, Gatys.train still_optim rand_half (fun _ t => t) (0, 0) [fun X => X] [0%Z] [0%Z] X [X] [X]
                         (Q2Qc (1 # 2)) 3 0 = Raise e) /\
  Gatys.train still_optim rand_half (fun _ t => t) (0, 0) [fun X => X] [0%Z] [0%Z] X [X] [X]
              (Q2Qc (1 # 2)) 3 0 = Raise ZeroDivisionError.
Proof.
  intros X. split.
  - apply (proj1 (@zero_decay_interval_stops_training scalar _ still_optim rand_half
                    (fun _ t => t) (0, 0) X [fun X => X] [0%Z] [0%Z] X [X] [X] (Q2Qc (1 # 2)) 3
                    ltac:(lia))).
  - vm_compute. reflexivity.
Defined.

(** ** The references and the whole of main.py *)

(** [get_contents] of Gatys.py returns exactly when [get_contents] of
    main.py returns and [postprocess] of the preprocessed content image
    does, and then the two return the same pair: Gatys.py calls
    [postprocess] on the content image and drops the result, so that a
    failure of that call is a failure of [get_contents]. *)
Theorem get_contents_in_both_files (PIL : Type) (Resize : nat * nat -> PIL -> PIL)
    (ToTensor : PIL -> tensor3 scalar) (ToPILImage : tensor3 scalar -> pyresult PIL)
    (Resize_tensor : nat * nat -> tensor3 scalar -> tensor3 scalar)
    (Content_Image : PIL) (Content_Size : nat * nat)
    (net : list (layer scalar)) (Content_Layers Style_Layers : list Z)
    (image_shape_ : nat * nat) (r : tensor4 scalar * list (tensor4 scalar)) :
  GatysImages.get_contents Resize ToTensor ToPILImage Resize_tensor Content_Image
                           Content_Size net Content_Layers Style_Layers image_shape_
    = Ok r <->
  MainImages.get_contents Resize ToTensor Content_Image net Content_Layers
                          Style_Layers image_shape_ = Ok r /\
  exists p, GatysImages.postprocess ToPILImage Resize_tensor Content_Size (fst r)
            = Ok p.
Proof.
  unfold GatysImages.get_contents, MainImages.get_contents.
  destruct (preprocess Resize ToTensor Content_Image image_shape_) as [X|e];
    cbn [bind]; [|split; [discriminate|intros [E _]; discriminate]].
  split.
  - destruct (GatysImages.postprocess ToPILImage Resize_tensor Content_Size X)
      as [p|e] eqn:EP; cbn [bind]; [|discriminate].
    intros E. apply Ok_inj in E. subst r. split; [reflexivity|].
    exists p. exact EP.
  - intros [E [p EP]]. apply Ok_inj in E. subst r. cbn [fst] in EP.
    rewrite EP. reflexivity.
Qed.

(** main.py from top to bottom with a step count of zero or below and a
    learning rate that Adam accepts: when the truncated network is built,
    the two images are preprocessed, and the style activations have shape
    [(1, C, H, W)] with at least one channel, the output image is
    [postprocess] of the preprocessed content image; no arithmetic is done
    on the image in between. *)
Theorem main_program_without_epochs (T : torch_optim scalar) (PIL : Type)
    (Resize : nat * nat -> PIL -> PIL) (ToTensor : PIL -> tensor3 scalar)
    (ToPILImage : tensor3 scalar -> pyresult PIL)
    (features net : list (layer scalar)) (content_layers style_layers : list Z)
    (content_img style_img : PIL) (image_shape : nat * nat)
    (lr : Qc) (num_epochs lr_decay_epoch : Z) (N C H W : nat)
    (content_X style_X : tensor4 scalar) :
  (num_epochs <= 0)%Z -> (0 <= lr)%Qc ->
  Incomplete_CNN features content_layers style_layers = Ok net ->
  preprocess Resize ToTensor content_img image_shape = Ok content_X ->
  has_shape N C H W content_X ->
  preprocess Resize ToTensor style_img image_shape = Ok style_X ->
  Forall (fun Y => exists C' H' W', 1 <= C' /\ has_shape 1 C' H' W' Y)
         (snd (extract_features net style_X content_layers style_layers)) ->
  MainImages.program T Resize ToTensor ToPILImage features content_layers style_layers
                     content_img style_img image_shape lr num_epochs lr_decay_epoch
  = MainImages.postprocess ToPILImage content_X.
Proof.
  intros Hn Hlr EN EC HC ES HS.
  unfold MainImages.program, MainImages.get_contents, MainImages.get_styles.
  rewrite EN. cbn [bind]. rewrite EC, ES. cbn [bind fst snd].
  destruct (grams_exist HS) as [grams Hg].
  unfold Main.train.
  erewrite Main_train_run_no_epochs;
    [|exact Hn|exact Hlr|exact HC|exact HC|exact Hg].
  reflexivity.
Qed.

Lemma main_program_without_epochs_witness :
  let img := [[[Fin 1%Qc]]; [[Fin 0%Qc]]; [[Fin (Q2Qc (1 # 2))]]] in
  let Resize := fun (_ : nat * nat) (x : list (list (list scalar))) => x in
  let ToTensor := @T3 scalar (3, 1, 1) in
  let ToPILImage := fun t : tensor3 scalar => Ok (data t) in
  exists X,
    Incomplete_CNN [fun X : tensor4 scalar => X] [0%Z] [0%Z] = Ok [fun X => X] /\
    preprocess Resize ToTensor img (300, 450) = Ok X /\ has_shape 1 3 1 1 X /\
    MainImages.program still_optim Resize ToTensor ToPILImage [fun X => X] [0%Z] [0%Z]
                       img img (300, 450) (Q2Qc (1 # 2)) 0 50
    = MainImages.postprocess ToPILImage X.
Proof.
  intros img Resize ToTensor ToPILImage.
  assert (EN : Incomplete_CNN [fun X : tensor4 scalar => X] [0%Z] [0%Z]
               = Ok [fun X => X]) by reflexivity.
  destruct (preprocess Resize ToTensor img (300, 450)) as [X|] eqn:EX;
    [|vm_compute in EX; discriminate EX].
  assert (HX : has_shape 1 3 1 1 X).
  { vm_compute in EX. apply Ok_inj in EX. subst X.
    unfold has_shape. simpl. repeat (split || constructor). }
  exists X. split; [exact EN|]. split; [reflexivity|]. split; [exact HX|].
  apply (@main_program_without_epochs still_optim _ Resize ToTensor ToPILImage
           [fun X => X] [fun X => X] [0%Z] [0%Z] img img (300, 450) (Q2Qc (1 # 2))
           0 50 1 3 1 1 X X ltac:(lia) ltac:(vm_compute; discriminate) EN EX HX EX).
  rewrite extract_features_table. cbn [snd].
  constructor; [|constructor]. exists 3, 1, 1. split; [lia|exact HX].
Defined.
